(** * neurax: branched multi-compartment neuron solver

    A shallow embedding of [neurax/vectorfield.py] and
    [neurax/integrate.py], with the properties of the specification
    stated and proved over it.

    Conventions of the embedding.
    - A one-dimensional JAX array is a [list] of scalars; a stacked
      two-dimensional array is a list of rows.
    - Python integers are [Z]; positions inside a list are [nat].
    - A shape error raised by the array library is [None] in the option
      monad ([x ← m; k] is stdpp's bind).
    - Scalars are kept abstract in the class [Scalar]: the definitions are
      written once and read at two instances, the real numbers (idealised
      arithmetic, used where a property needs the laws of a field) and
      binary64 floating point numbers (used to run the definitions). *)

From Stdlib Require Import ZArith List Lia Reals Lra Floats.
From stdpp Require Import base list option.
From stdpp Require gmap.
Import ListNotations.

(** ** Scalars *)

Class Scalar (F : Type) := {
  of_Z : Z -> F;                 (* a literal with an integer value *)
  fpi : F;                       (* math.pi *)
  fadd : F -> F -> F;
  fmul : F -> F -> F;
  fdiv : F -> F -> F;
  fneg : F -> F;
  fpow : F -> positive -> F;     (* x ** k for a literal k >= 1 *)
  fge : F -> F -> bool;          (* jnp.greater_equal *)
  fle : F -> F -> bool           (* jnp.less_equal *)
}.

Definition Rleb (x y : R) : bool := if Rle_dec x y then true else false.

#[global] Instance Scalar_R : Scalar R := {|
  of_Z := IZR;
  fpi := PI;
  fadd := Rplus;
  fmul := Rmult;
  fdiv := Rdiv;
  fneg := Ropp;
  fpow := fun x k => pow x (Pos.to_nat k);
  fge := fun x y => Rleb y x;
  fle := Rleb
|}.

Definition float_of_Z (z : Z) : float :=
  match z with
  | Z0 => 0%float
  | Zpos _ => PrimFloat.of_uint63 (Uint63.of_Z z)
  | Zneg p => PrimFloat.opp (PrimFloat.of_uint63 (Uint63.of_Z (Zpos p)))
  end.

#[global] Instance Scalar_float : Scalar float := {|
  of_Z := float_of_Z;
  fpi := 0x1.921fb54442d18p+1%float;
  fadd := PrimFloat.add;
  fmul := PrimFloat.mul;
  fdiv := PrimFloat.div;
  fneg := PrimFloat.opp;
  fpow := fun x k => Pos.iter_op PrimFloat.mul k x;
  fge := fun x y => PrimFloat.leb y x;
  fle := PrimFloat.leb
|}.

(** ** Array primitives *)

Section Arrays.
Context {F : Type} `{Scalar F}.

(** [jnp.zeros((n,))], [jnp.ones((n,))]: a negative dimension is refused. *)
Definition zeros (n : Z) : option (list F) :=
  if (n <? 0)%Z then None else Some (replicate (Z.to_nat n) (of_Z 0)).

Definition ones (n : Z) : option (list F) :=
  if (n <? 0)%Z then None else Some (replicate (Z.to_nat n) (of_Z 1)).

(** [jnp.zeros_like(x)] for a one-dimensional [x]. *)
Definition zeros_like (x : list F) : list F :=
  replicate (length x) (of_Z 0).

(** [jnp.arange(n)] and [range(n)]: empty when [n <= 0]. *)
Definition arange (n : Z) : list Z := map Z.of_nat (seq 0 (Z.to_nat n)).

(** An index of an update: a negative index counts from the end; what is
    still outside [0, len) has no position. This is the library's
    treatment of an index that fits in a signed 32-bit integer, into an
    array that is not empty; it reduces a larger index modulo [2 ^ 32]
    first, and refuses an integer index into an empty array. *)
Definition normalize_index (len : nat) (i : Z) : option nat :=
  let j := if (i <? 0)%Z then (i + Z.of_nat len)%Z else i in
  if ((0 <=? j) && (j <? Z.of_nat len))%Z then Some (Z.to_nat j) else None.

(** [x.at[i].set(v)]: a functional update; an index out of range is
    dropped and the array returned as it is. The array is taken to have
    an entry, and the index to fit in 32 bits, as for [normalize_index]. *)
Definition at_set (x : list F) (i : Z) (v : F) : list F :=
  match normalize_index (length x) i with
  | Some j => <[j:=v]> x
  | None => x
  end.

(** Broadcasting a one-dimensional array to length [n]. *)
Definition broadcast_to (n : nat) (vals : list F) : option (list F) :=
  if decide (length vals = n) then Some vals
  else match vals with
       | [v] => Some (replicate n v)
       | _ => None
       end.

(** [x.at[idxs].set(vals)] for an index array: [vals] is broadcast to the
    shape of [idxs], then every update is applied. *)
Definition at_set_many (x : list F) (idxs : list Z) (vals : list F)
  : option (list F) :=
  vals' ← broadcast_to (length idxs) vals;
  Some (fold_left (fun acc p => at_set acc p.1 p.2) (zip idxs vals') x).

(** An elementwise binary operation on two one-dimensional arrays, with
    the broadcasting of a length-one operand; other length mismatches are
    shape errors. *)
Definition ewise2 (f : F -> F -> F) (xs ys : list F) : option (list F) :=
  if decide (length xs = length ys) then Some (zip_with f xs ys)
  else match xs, ys with
       | [x], _ => Some (map (f x) ys)
       | _, [y] => Some (map (fun x => f x y) xs)
       | _, _ => None
       end.

(** The bounds of a slice [l[start:stop]]: negative bounds count from the
    end, and both are clamped to [0, len]. *)
Definition clamp_index (len : nat) (i : Z) : nat :=
  let j := if (i <? 0)%Z then (i + Z.of_nat len)%Z else i in
  Z.to_nat (Z.min (Z.max j 0) (Z.of_nat len)).

Definition py_slice {A : Type} (l : list A) (start stop : Z) : list A :=
  let s := clamp_index (length l) start in
  let e := clamp_index (length l) stop in
  take (e - s) (drop s l).

(** [l[start::step]] for literals [start >= 0] and [step >= 1]: [skip]
    counts the elements still to pass over before the next one is kept. *)
Fixpoint stride_aux {A : Type} (step skip : nat) (l : list A) : list A :=
  match l with
  | [] => []
  | x :: l' =>
      match skip with
      | O => x :: stride_aux step (step - 1) l'
      | S k => stride_aux step k l'
      end
  end.

Definition slice_step {A : Type} (start step : nat) (l : list A) : list A :=
  stride_aux step start l.

(** [jnp.asarray(rows)] for a Python list of one-dimensional arrays: the
    rows are stacked, and rows of different lengths are refused. *)
Definition asarray_rows (rows : list (list F)) : option (list (list F)) :=
  match rows with
  | [] => Some []
  | r :: _ =>
      if forallb (fun r' => Nat.eqb (length r') (length r)) rows
      then Some rows else None
  end.

End Arrays.

(** ** vectorfield.py *)

Section VectorField.
Context {F : Type} `{Scalar F}.

(** The result is the tuple [(lower, a_v, upper, b_v)]. *)
Definition _define_tridiag_for_branch
    (voltages na_conds kd_conds leak_conds i_ext : list F) (dt : F)
    (num_neighbours : list F) (coupling_conds : F) (nseg_per_branch : Z)
  : option (list F * list F * list F * list F) :=
  s ← ewise2 fadd na_conds kd_conds;
  voltage_terms ← ewise2 fadd s leak_conds;
  c1 ← ewise2 fadd (map (fmul (of_Z 50)) na_conds)
                   (map (fmul (of_Z (-90))) kd_conds);
  c2 ← ewise2 fadd c1 (map (fmul (of_Z (-65))) leak_conds);
  constant_terms ← ewise2 fadd c2 i_ext;
  (* Diagonal and solve. *)
  a1 ← ewise2 fadd (map (fadd (of_Z 1)) (map (fmul dt) voltage_terms))
                   (map (fun x => fmul x coupling_conds)
                        (map (fmul dt) num_neighbours));
  let a_v := a1 in
  b_v ← ewise2 fadd voltages (map (fmul dt) constant_terms);
  (* Subdiagonals. *)
  let upper := replicate (Z.to_nat (nseg_per_branch - 1))
                         (fmul (fneg dt) coupling_conds) in
  let lower := replicate (Z.to_nat (nseg_per_branch - 1))
                         (fmul (fneg dt) coupling_conds) in
  Some (lower, a_v, upper, b_v).

(** The loop of [define_all_tridiags] over the branches still to do,
    with the four Python lists it appends to. *)
Fixpoint tridiag_loop
    (voltages na_conds kd_conds leak_conds i_ext num_neighbours : list F)
    (nseg_per_branch : Z) (dt coupling_conds : F)
    (bs : list Z) (lowers diags uppers solves : list (list F))
  : option (list (list F) * list (list F) * list (list F) * list (list F)) :=
  match bs with
  | [] => Some (lowers, diags, uppers, solves)
  | b :: bs' =>
      let l_ind := (b * nseg_per_branch)%Z in
      let u_ind := ((b + 1) * nseg_per_branch)%Z in
      let voltages_in_branch := py_slice voltages l_ind u_ind in
      let na_conds_in_branch := py_slice na_conds l_ind u_ind in
      let kd_conds_in_branch := py_slice kd_conds l_ind u_ind in
      let leak_conds_in_branch := py_slice leak_conds l_ind u_ind in
      let i_ext_in_branch := py_slice i_ext l_ind u_ind in
      let num_neighbours_in_branch := py_slice num_neighbours l_ind u_ind in
      '(lower, diag, upper, solve) ←
        _define_tridiag_for_branch voltages_in_branch na_conds_in_branch
          kd_conds_in_branch leak_conds_in_branch i_ext_in_branch dt
          num_neighbours_in_branch coupling_conds nseg_per_branch;
      tridiag_loop voltages na_conds kd_conds leak_conds i_ext num_neighbours
        nseg_per_branch dt coupling_conds bs'
        (lowers ++ [lower]) (diags ++ [diag]) (uppers ++ [upper])
        (solves ++ [solve])
  end.

Definition define_all_tridiags
    (voltages na_conds kd_conds leak_conds i_ext num_neighbours : list F)
    (nseg_per_branch num_branches : Z) (dt coupling_conds : F)
  : option (list (list F) * list (list F) * list (list F) * list (list F)) :=
  '(lowers, diags, uppers, solves) ←
    tridiag_loop voltages na_conds kd_conds leak_conds i_ext num_neighbours
      nseg_per_branch dt coupling_conds (arange num_branches) [] [] [] [];
  lowers' ← asarray_rows lowers;
  diags' ← asarray_rows diags;
  uppers' ← asarray_rows uppers;
  solves' ← asarray_rows solves;
  Some (lowers', diags', uppers', solves').

Definition get_external_input
    (voltages : list F) (t i_dur i_amp radius length_single_compartment : F)
    (nseg_per_branch : Z) : list F :=
  let zero_vec := zeros_like voltages in
  let stim_on := fge t (of_Z 5) in
  let stim_off := fle t (fadd (of_Z 5) i_dur) in
  let stim_ := stim_on && stim_off in
  let current_in_comp :=
    fdiv (fdiv (fdiv (fdiv i_amp (of_Z 2)) fpi) radius)
         length_single_compartment in
  if stim_ then at_set zero_vec (nseg_per_branch - 1) current_in_comp
  else zero_vec.

Definition get_num_neighbours
    (num_kids : list F) (nseg_per_branch num_branches : Z)
  : option (list F) :=
  o ← ones (num_branches * nseg_per_branch);
  let num_neighbours := map (fmul (of_Z 2)) o in
  let num_neighbours := at_set num_neighbours (nseg_per_branch - 1) (of_Z 1) in
  at_set_many num_neighbours
    (map (fun b => (b * nseg_per_branch)%Z) (arange num_branches))
    (map (fun k => fadd k (of_Z 1)) num_kids).

End VectorField.

(** ** integrate.py *)

(** The module-level globals. A function that reads them takes the record
    as an argument; [solve], which assigns them, takes the record as it
    finds it and returns the record as it leaves it. *)
Record Globals := {
  NUM_BRANCHES : Z;
  NSEG_PER_BRANCH : Z
}.

(** An assignment to one global leaves the other as it is. *)
Definition set_NUM_BRANCHES (v : Z) (g : Globals) : Globals :=
  {| NUM_BRANCHES := v; NSEG_PER_BRANCH := NSEG_PER_BRANCH g |}.

Definition set_NSEG_PER_BRANCH (v : Z) (g : Globals) : Globals :=
  {| NUM_BRANCHES := NUM_BRANCHES g; NSEG_PER_BRANCH := v |}.

(** The value both globals hold when the module is loaded. *)
Definition initial_globals : Globals :=
  {| NUM_BRANCHES := -1; NSEG_PER_BRANCH := -1 |}.

Section Integrate.
Context {F : Type} `{Scalar F}.

(** The attributes [solve] reads from its [cell] and [stimulus]. *)
Record Cell := {
  num_branches : Z;
  nseg_per_branch : Z;
  radius : F;
  length_single_compartment : F;
  num_neighbours : list F;
  coupling_conds : F;
  branches_in_each_level : list (list Z);
  parents : list Z
}.

Record Stimulus := {
  i_delay : F;
  i_amp : F;
  i_dur : F
}.

(** The state tuple carried through the loop, one field per position;
    [saveat] is the last one. *)
Record LoopState := {
  st_t : F;
  st_u : list F;
  st_params : list F;
  st_i_delay : F;
  st_i_amp : F;
  st_i_dur : F;
  st_dt : F;
  st_radius : F;
  st_length_single_compartment : F;
  st_num_neighbours : list F;
  st_coupling_conds : F;
  st_branches_in_each_level : list (list Z);
  st_parents : list Z;
  st_saveat : list F
}.

(** The imports whose modules are not part of the sources: the gating
    kinetics of [neurax.mechanisms] and the solver of
    [neurax.implicit_euler]. They are taken as parameters, and may fail. *)
Record Imports := {
  m_gate : list F -> option (list F * list F);
  h_gate : list F -> option (list F * list F);
  n_gate : list F -> option (list F * list F);
  solve_gate_implicit : list F -> F -> list F -> list F -> option (list F);
  solve_branched :
    list (list Z) -> list Z ->
    list (list F) -> list (list F) -> list (list F) -> list (list F) ->
    F -> option (list (list F))
}.

Variable imports : Imports.

(** Modelled from the spec: [get_external_input] as [find_root] imports it
    from [neurax.stimulus], a module absent from the sources. It has the
    signature of the call site, with [i_delay], which it does not read,
    and otherwise is the function of that name in the sources. *)
Definition stimulus_get_external_input
    (voltages : list F) (t i_delay i_dur i_amp radius
     length_single_compartment : F) (nseg_per_branch : Z) : list F :=
  get_external_input voltages t i_dur i_amp radius length_single_compartment
    nseg_per_branch.

(** [jnp.ravel(jnp.column_stack((v, m, h, n)))]: the four columns must
    have one length; the rows are then laid out one after the other. *)
Fixpoint interleave4 (v m h n : list F) : list F :=
  match v, m, h, n with
  | a :: v', b :: m', c :: h', d :: n' =>
      a :: b :: c :: d :: interleave4 v' m' h' n'
  | _, _, _, _ => []
  end.

Definition ravel_column_stack (v m h n : list F) : option (list F) :=
  if decide (length m = length v /\ length h = length v
             /\ length n = length v)
  then Some (interleave4 v m h n) else None.

(** Lines 72 to 74 of [find_root]: the three conductance vectors. *)
Definition find_root_conds (params ms hs ns : list F)
  : option (list F * list F * list F) :=
  p_m3 ← ewise2 fmul (slice_step 0 3 params) (map (fun x => fpow x 3) ms);
  na_conds ← ewise2 fmul p_m3 hs;
  kd_conds ← ewise2 fmul (slice_step 1 3 params)
                         (map (fun x => fpow x 4) ns);
  let leak_conds := slice_step 2 3 params in
  Some (na_conds, kd_conds, leak_conds).

Definition find_root (g : Globals)
    (t : F) (u params : list F) (i_delay i_amp i_dur dt radius
     length_single_compartment : F) (num_neighbours : list F)
    (coupling_conds : F) (branches_in_each_level : list (list Z))
    (parents : list Z) : option (list F) :=
  let voltages := slice_step 0 4 u in
  let ms := slice_step 1 4 u in
  let hs := slice_step 2 4 u in
  let ns := slice_step 3 4 u in
  rm ← m_gate imports voltages;
  new_m ← solve_gate_implicit imports ms dt rm.1 rm.2;
  rh ← h_gate imports voltages;
  new_h ← solve_gate_implicit imports hs dt rh.1 rh.2;
  rn ← n_gate imports voltages;
  new_n ← solve_gate_implicit imports ns dt rn.1 rn.2;
  '(na_conds, kd_conds, leak_conds) ← find_root_conds params ms hs ns;
  (* External input *)
  let i_ext :=
    stimulus_get_external_input voltages t i_delay i_dur i_amp radius
      length_single_compartment (NSEG_PER_BRANCH g) in
  '(lowers, diags, uppers, solves) ←
    define_all_tridiags voltages na_conds kd_conds leak_conds i_ext
      num_neighbours (NSEG_PER_BRANCH g) (NUM_BRANCHES g) dt coupling_conds;
  solves ← solve_branched imports branches_in_each_level parents lowers
             diags uppers solves (fmul (fneg dt) coupling_conds);
  let new_v := concat solves in
  ravel_column_stack new_v new_m new_h new_n.

Definition body_fun (g : Globals) (i : Z) (state : LoopState)
  : option LoopState :=
  u_inner ← find_root g (st_t state) (st_u state) (st_params state)
              (st_i_delay state) (st_i_amp state) (st_i_dur state)
              (st_dt state) (st_radius state)
              (st_length_single_compartment state)
              (st_num_neighbours state) (st_coupling_conds state)
              (st_branches_in_each_level state) (st_parents state);
  let t := fadd (st_t state) (st_dt state) in
  u0 ← u_inner !! 0;
  let saveat := at_set (st_saveat state) i u0 in
  Some {| st_t := t;
          st_u := u_inner;
          st_params := st_params state;
          st_i_delay := st_i_delay state;
          st_i_amp := st_i_amp state;
          st_i_dur := st_i_dur state;
          st_dt := st_dt state;
          st_radius := st_radius state;
          st_length_single_compartment := st_length_single_compartment state;
          st_num_neighbours := st_num_neighbours state;
          st_coupling_conds := st_coupling_conds state;
          st_branches_in_each_level := st_branches_in_each_level state;
          st_parents := st_parents state;
          st_saveat := saveat |}.

(** [lax.fori_loop]: the carried value must keep its shape from one
    iteration to the next; here only the state vector can change its
    length. *)
Definition carry_same_shape (s s' : LoopState) : bool :=
  Nat.eqb (length (st_u s')) (length (st_u s)).

Fixpoint fori_loop_from (body : Z -> LoopState -> option LoopState)
    (i : Z) (n : nat) (s : LoopState) : option LoopState :=
  match n with
  | O => Some s
  | S n' =>
      s' ← body i s;
      if carry_same_shape s s' then fori_loop_from body (i + 1) n' s'
      else None
  end.

Definition fori_loop (lower upper : Z)
    (body : Z -> LoopState -> option LoopState) (init : LoopState)
  : option LoopState :=
  fori_loop_from body lower (Z.to_nat (upper - lower)) init.

(** The state tuple as [solve] and [body_fun] build it: the fields taken
    from [cell], [stimulus], [dt] and [params] never change. *)
Definition loop_state (cell : Cell) (stimulus : Stimulus) (dt : F)
    (params : list F) (t : F) (u saveat : list F) : LoopState :=
  {| st_t := t;
     st_u := u;
     st_params := params;
     st_i_delay := i_delay stimulus;
     st_i_amp := i_amp stimulus;
     st_i_dur := i_dur stimulus;
     st_dt := dt;
     st_radius := radius cell;
     st_length_single_compartment := length_single_compartment cell;
     st_num_neighbours := num_neighbours cell;
     st_coupling_conds := coupling_conds cell;
     st_branches_in_each_level := branches_in_each_level cell;
     st_parents := parents cell;
     st_saveat := saveat |}.

(** [solve], as a call that traces [body_fun] itself: every iteration
    then runs the step at the values just assigned to the globals. A call
    that may find the step traced by an earlier call is
    [solve_in_process] below. *)
Definition solve (g0 : Globals) (cell : Cell) (dt : F) (u params : list F)
    (stimulus : Stimulus) : option (list F) * Globals :=
  let g := set_NUM_BRANCHES (num_branches cell) g0 in
  let g := set_NSEG_PER_BRANCH (nseg_per_branch cell) g in
  let saveat := replicate 1000 (of_Z 0) in
  let t := of_Z 0 in
  let init_state := loop_state cell stimulus dt params t u saveat in
  (final_state ← fori_loop 0 1000 (body_fun g) init_state;
   Some (st_saveat final_state), g).

End Integrate.

Arguments Cell F : clear implicits.
Arguments Stimulus F : clear implicits.
Arguments LoopState F : clear implicits.
Arguments Imports F : clear implicits.

(** ** The traced step and its reuse

    [lax.fori_loop] does not call [body_fun] anew at every iteration, nor
    at every call of [solve]: it traces the function once for the shapes
    of the carried state, keeps the trace, and runs the kept trace
    whenever it is called again with [body_fun] and a carried state of
    the same shapes. [find_root] reads [NSEG_PER_BRANCH] and
    [NUM_BRANCHES] as plain integers while it is traced (they fix the
    slices, the stimulated position and the number of systems), so the
    values the globals hold at that moment are part of the trace.

    [solve] above is the call that traces the step itself. The following
    is a call within a running process, which may find a trace made by an
    earlier call. *)





Section TracedStep.
Context {F : Type} `{Scalar F}.
Variable imports : Imports F.




End TracedStep.

(** ** Notions of the specification *)

Section SpecNotions.
Context {F : Type} `{Scalar F}.

Definition all_zero (l : list F) : Prop :=
  Forall (fun x => x = of_Z 0) l.

(** Position [i] holds a nonzero value and no other position does. *)
Definition only_nonzero_at (l : list F) (i : nat) : Prop :=
  (exists x, l !! i = Some x /\ x <> of_Z 0)
  /\ forall j y, l !! j = Some y -> j <> i -> y = of_Z 0.

Definition exactly_one_nonzero (l : list F) : Prop :=
  exists i, only_nonzero_at l i.

(** Row [i] of the product of the tridiagonal matrix given by its three
    diagonals with the vector [x]; [lower] and [upper] are one entry
    shorter than [diag]. *)
Definition tridiag_row (lower diag upper x : list F) (i : nat) : F :=
  let below :=
    match i with
    | O => of_Z 0
    | S j => fmul (nth j lower (of_Z 0)) (nth j x (of_Z 0))
    end in
  let above :=
    if decide (S i < length diag)
    then fmul (nth i upper (of_Z 0)) (nth (S i) x (of_Z 0))
    else of_Z 0 in
  fadd (fadd below (fmul (nth i diag (of_Z 0)) (nth i x (of_Z 0)))) above.

Definition solves_tridiag (lower diag upper rhs x : list F) : Prop :=
  length x = length diag
  /\ forall i, i < length diag ->
       tridiag_row lower diag upper x i = nth i rhs (of_Z 0).

(** Modelled from the spec: the contract of [solve_branched], whose source
    is absent: the result has one vector per branch, and it solves every
    branch's tridiagonal system exactly. The contract is written for a
    junction term that is zero, where nothing is folded into the
    systems. *)
Definition solve_branched_exact
    (lowers diags uppers rhss xs : list (list F)) : Prop :=
  length xs = length diags
  /\ forall b lower diag upper rhs x,
       lowers !! b = Some lower -> diags !! b = Some diag ->
       uppers !! b = Some upper -> rhss !! b = Some rhs ->
       xs !! b = Some x ->
       solves_tridiag lower diag upper rhs x.

(** The state vectors after each of the first [k] steps of the per-step
    update, started at time [t] from the state vector [u]: a failing step
    makes the whole sequence fail. *)
Fixpoint trajectory (imports : Imports F) (g : Globals) (cell : Cell F)
    (stimulus : Stimulus F) (dt : F) (params : list F)
    (k : nat) (t : F) (u : list F) : option (list (list F)) :=
  match k with
  | O => Some []
  | S k' =>
      u' ← find_root imports g t u params (i_delay stimulus)
             (i_amp stimulus) (i_dur stimulus) dt (radius cell)
             (length_single_compartment cell) (num_neighbours cell)
             (coupling_conds cell) (branches_in_each_level cell)
             (parents cell);
      us ← trajectory imports g cell stimulus dt params k' (fadd t dt) u';
      Some (u' :: us)
  end.

(** ** Components to run the driver with

    The following stand in for the absent modules where a run of the
    driver is wanted. *)

(** Modelled from the spec: the closed form of one implicit Euler step of
    a gating variable, [(gate + dt * a) / (1 + dt * (a + b))]. *)
Definition solve_gate_implicit_closed_form
    (gate : list F) (dt : F) (opening closing : list F) : option (list F) :=
  num ← ewise2 fadd gate (map (fmul dt) opening);
  rates ← ewise2 fadd opening closing;
  ewise2 fdiv num (map (fadd (of_Z 1)) (map (fmul dt) rates)).

(** Rate functions that do not depend on the voltage. *)
Definition constant_rate_gate (a b : F) (voltages : list F)
  : option (list F * list F) :=
  Some (map (fun _ => a) voltages, map (fun _ => b) voltages).

(** A solver for morphologies without coupling: every system is then
    diagonal, and is solved by one division per compartment. *)
Definition solve_uncoupled
    (branches_in_each_level : list (list Z)) (parents : list Z)
    (lowers diags uppers solves : list (list F)) (term : F)
  : option (list (list F)) :=
  mapM (fun p => ewise2 fdiv p.2 p.1) (zip diags solves).

Definition uncoupled_imports : Imports F := {|
  m_gate := constant_rate_gate (of_Z 1) (of_Z 2);
  h_gate := constant_rate_gate (of_Z 1) (of_Z 1);
  n_gate := constant_rate_gate (of_Z 2) (of_Z 1);
  solve_gate_implicit := solve_gate_implicit_closed_form;
  solve_branched := solve_uncoupled
|}.

End SpecNotions.

(** The formulas of the specification for one compartment [k], over the
    real numbers. *)
Definition expected_diag (dt : R) (na_conds kd_conds leak_conds
    num_neighbours : list R) (coupling_conds : R) (k : nat) : R :=
  (1 + dt * (nth k na_conds 0 + nth k kd_conds 0 + nth k leak_conds 0)
   + dt * nth k num_neighbours 0 * coupling_conds)%R.

Definition expected_rhs (dt : R) (voltages na_conds kd_conds leak_conds
    i_ext : list R) (k : nat) : R :=
  (nth k voltages 0
   + dt * (50 * nth k na_conds 0 - 90 * nth k kd_conds 0
           - 65 * nth k leak_conds 0 + nth k i_ext 0))%R.

(** A one-branch, two-compartment cell without coupling, and a run of the
    driver on it in binary64. *)
Definition example_cell : Cell float := {|
  num_branches := 1;
  nseg_per_branch := 2;
  radius := 1%float;
  length_single_compartment := 10%float;
  num_neighbours := [1%float; 1%float];
  coupling_conds := 0%float;
  branches_in_each_level := [[0%Z]];
  parents := [(-1)%Z]
|}.


Definition example_stimulus : Stimulus float :=
  {| i_delay := 5%float; i_amp := 1%float; i_dur := 2%float |}.

Definition example_u : list float :=
  [(-65)%float; 0.5%float; 0.5%float; 0.5%float;
   (-60)%float; 0.25%float; 0.75%float; 0.5%float].

Definition example_params : list float :=
  [0.5%float; 0.25%float; 0.125%float; 0.5%float; 0.25%float; 0.125%float].

Definition example_dt : float := 0.03125%float.

(** * Properties *)

(** Reading the scalar operations at the real numbers. *)
Ltac real_scalars :=
  cbn [of_Z fpi fadd fmul fdiv fneg fpow fge fle Scalar_R] in *.

(** ** Array primitives *)

Section ArrayFacts.
Context {F : Type} `{Scalar F}.

Lemma normalize_index_in_range (len : nat) (j : nat) :
  j < len -> normalize_index len (Z.of_nat j) = Some j.
Proof.
  intros Hj. unfold normalize_index.
  destruct (Z.ltb_spec (Z.of_nat j) 0); [lia|].
  destruct (Z.leb_spec 0 (Z.of_nat j)); [|lia].
  destruct (Z.ltb_spec (Z.of_nat j) (Z.of_nat len)); [|lia].
  simpl. f_equal. lia.
Qed.

Lemma normalize_index_lt (len : nat) (i : Z) (j : nat) :
  normalize_index len i = Some j -> j < len.
Proof.
  unfold normalize_index. intros Hn.
  destruct (i <? 0)%Z;
    destruct (0 <=? _)%Z eqn:E1; destruct (_ <? Z.of_nat len)%Z eqn:E2;
    simpl in Hn; try discriminate; injection Hn as <-;
    apply Z.leb_le in E1; apply Z.ltb_lt in E2; lia.
Qed.

Lemma length_at_set (x : list F) (i : Z) (v : F) :
  length (at_set x i v) = length x.
Proof.
  unfold at_set. destruct (normalize_index _ _); [apply length_insert|done].
Qed.

Lemma at_set_in_range (x : list F) (j : nat) (v : F) :
  j < length x -> at_set x (Z.of_nat j) v = <[j:=v]> x.
Proof.
  intros Hj. unfold at_set. by rewrite normalize_index_in_range.
Qed.

Lemma length_fold_at_set (ps : list (Z * F)) (x : list F) :
  length (fold_left (fun acc p => at_set acc p.1 p.2) ps x) = length x.
Proof.
  revert x. induction ps as [|p ps IH]; intros x; simpl; [done|].
  by rewrite IH, length_at_set.
Qed.

(** A position no update is aimed at keeps its value. *)
Lemma fold_at_set_untouched (ps : list (Z * F)) (x : list F) (j : nat) :
  (forall p, p ∈ ps -> normalize_index (length x) p.1 <> Some j) ->
  fold_left (fun acc p => at_set acc p.1 p.2) ps x !! j = x !! j.
Proof.
  revert x. induction ps as [|p ps IH]; intros x Hps; simpl; [done|].
  rewrite IH.
  - unfold at_set. destruct (normalize_index (length x) p.1) as [k|] eqn:E;
      [|done].
    apply list_lookup_insert_ne. intros ->.
    apply (Hps p); [left|done].
  - intros q Hq. rewrite length_at_set. apply Hps. by right.
Qed.

(** The last update aimed at a position decides its value. *)
Lemma fold_at_set_written (ps1 ps2 : list (Z * F)) (i : Z) (v : F)
    (x : list F) (j : nat) :
  normalize_index (length x) i = Some j ->
  (forall p, p ∈ ps2 -> normalize_index (length x) p.1 <> Some j) ->
  fold_left (fun acc p => at_set acc p.1 p.2) (ps1 ++ (i, v) :: ps2) x !! j
  = Some v.
Proof.
  intros Hi Hps2. rewrite fold_left_app. simpl.
  set (x1 := fold_left _ ps1 x).
  assert (Hlen : length x1 = length x) by apply length_fold_at_set.
  rewrite fold_at_set_untouched.
  - unfold at_set. rewrite Hlen, Hi.
    apply list_lookup_insert_eq. rewrite Hlen.
    by apply normalize_index_lt with i.
  - intros p Hp. rewrite length_at_set, Hlen. by apply Hps2.
Qed.

End ArrayFacts.

(** ** get_num_neighbours *)

Section NumNeighbours.
Context {F : Type} `{Scalar F}.

Lemma arange_of_nat (n : nat) : arange (Z.of_nat n) = Z.of_nat <$> seq 0 n.
Proof. unfold arange. by rewrite Nat2Z.id. Qed.

(** The positions [get_num_neighbours] writes in its last update. *)
Lemma first_compartments (nb nseg : nat) :
  map (fun b => (b * Z.of_nat nseg)%Z) (arange (Z.of_nat nb))
  = (fun b : nat => Z.of_nat (b * nseg)) <$> seq 0 nb.
Proof.
  rewrite arange_of_nat. change (map ?f ?l) with (f <$> l).
  rewrite <- list_fmap_compose. apply list_fmap_ext.
  intros _ b _. simpl. lia.
Qed.

(** The result of [get_num_neighbours] on a well-formed input, generic in
    the scalars. *)
Lemma get_num_neighbours_generic (num_kids : list F) (nseg nb : nat) :
  1 <= nb -> 1 <= nseg -> length num_kids = nb ->
  exists r,
    get_num_neighbours num_kids (Z.of_nat nseg) (Z.of_nat nb) = Some r
    /\ length r = nb * nseg
    /\ (forall b k, num_kids !! b = Some k ->
          r !! (b * nseg) = Some (fadd k (of_Z 1)))
    /\ (2 <= nseg -> r !! (nseg - 1) = Some (of_Z 1))
    /\ (forall j, j < nb * nseg -> j `mod` nseg <> 0 -> j <> nseg - 1 ->
          r !! j = Some (fmul (of_Z 2) (of_Z 1))).
Proof.
  intros Hnb Hnseg Hkids. unfold get_num_neighbours, ones.
  destruct (Z.ltb_spec (Z.of_nat nb * Z.of_nat nseg) 0) as [Hneg|_]; [lia|].
  simpl. unfold at_set_many. rewrite first_compartments.
  replace (Z.to_nat (Z.of_nat nb * Z.of_nat nseg)) with (nb * nseg) by lia.
  change (map ?f ?l) with (f <$> l). rewrite fmap_replicate.
  set (x0 := replicate (nb * nseg) (fmul (of_Z 2) (of_Z 1))).
  set (vals := (fun k => fadd k (of_Z 1)) <$> num_kids).
  set (idxs := (fun b : nat => Z.of_nat (b * nseg)) <$> seq 0 nb).
  assert (Hx0 : length x0 = nb * nseg) by apply length_replicate.
  assert (Hlt : nseg - 1 < length x0) by (rewrite Hx0; nia).
  replace (Z.of_nat nseg - 1)%Z with (Z.of_nat (nseg - 1)) by lia.
  rewrite at_set_in_range by done.
  set (x1 := <[nseg - 1:=of_Z 1]> x0).
  assert (Hx1 : length x1 = nb * nseg)
    by (unfold x1; by rewrite length_insert).
  unfold broadcast_to.
  assert (Hvals : length vals = length idxs).
  { unfold vals, idxs. by rewrite !length_fmap, length_seq. }
  rewrite decide_True by done. simpl.
  eexists. split; [reflexivity|].
  assert (Hmem : forall p, p ∈ zip idxs vals ->
            exists b, b < nb /\ p.1 = Z.of_nat (b * nseg)).
  { intros p [i Hp]%list_elem_of_lookup.
    apply lookup_zip_with_Some in Hp as (a & c & -> & Ha & _).
    unfold idxs in Ha. rewrite list_lookup_fmap in Ha.
    destruct (seq 0 nb !! i) as [b|] eqn:E; simplify_eq/=.
    apply lookup_seq in E as [-> ?]. eauto. }
  split; [by rewrite length_fold_at_set|].
  split; [|split].
  - intros b k Hk.
    assert (Hb : b < nb) by (rewrite <- Hkids; by eapply lookup_lt_Some).
    assert (Hz : zip idxs vals !! b
                 = Some (Z.of_nat (b * nseg), fadd k (of_Z 1))).
    { rewrite lookup_zip_with. unfold idxs, vals.
      rewrite !list_lookup_fmap, lookup_seq_lt, Hk by done. done. }
    rewrite <- (take_drop_middle _ _ _ Hz).
    apply fold_at_set_written.
    + rewrite Hx1. apply normalize_index_in_range. nia.
    + intros p [i Hp]%list_elem_of_lookup.
      rewrite lookup_drop in Hp.
      apply lookup_zip_with_Some in Hp as (a & c & -> & Ha & _).
      unfold idxs in Ha. rewrite list_lookup_fmap in Ha.
      destruct (seq 0 nb !! (S b + i)) as [b'|] eqn:E; simplify_eq/=.
      apply lookup_seq in E as [-> ?].
      rewrite Hx1, normalize_index_in_range by nia.
      intros [=]. nia.
  - intros Hseg. rewrite fold_at_set_untouched.
    + unfold x1. by apply list_lookup_insert_eq.
    + intros p (b & Hb & ->)%Hmem.
      rewrite Hx1, normalize_index_in_range by nia.
      intros [=]. destruct b; nia.
  - intros j Hj Hmod Hlast. rewrite fold_at_set_untouched.
    + unfold x1. rewrite list_lookup_insert_ne by done.
      unfold x0. by apply lookup_replicate_2.
    + intros p (b & Hb & ->)%Hmem.
      rewrite Hx1, normalize_index_in_range by nia.
      intros [=]. subst j. apply Hmod. apply Nat.Div0.mod_mul.
Qed.

End NumNeighbours.

(** Neighbour counts of a three-branch cell with four compartments per
    branch, branch 0 having two children, computed in binary64. *)
Example get_num_neighbours_three_branches :
  get_num_neighbours [2%float; 0%float; 0%float] 4 3
  = Some [3; 2; 2; 1; 1; 2; 2; 2; 1; 2; 2; 2]%float.
Proof. vm_compute. reflexivity. Qed.

(** C1, as amended. For [nb >= 1] branches of [nseg >= 1] compartments and
    one child count per branch, [get_num_neighbours] returns a vector of
    length [nb * nseg] in which the first compartment of every branch [b]
    holds [num_kids[b] + 1], the last compartment of branch 0 (flat index
    [nseg - 1]) holds 1 when [nseg >= 2], and every other compartment,
    the last compartments of the other branches included, holds 2. *)
Theorem get_num_neighbours_values (num_kids : list R) (nseg nb : nat) :
  1 <= nb -> 1 <= nseg -> length num_kids = nb ->
  exists r,
    get_num_neighbours num_kids (Z.of_nat nseg) (Z.of_nat nb) = Some r
    /\ length r = nb * nseg
    /\ (forall b k, num_kids !! b = Some k ->
          r !! (b * nseg) = Some (k + 1)%R)
    /\ (2 <= nseg -> r !! (nseg - 1) = Some 1%R)
    /\ (forall j, j < nb * nseg -> j `mod` nseg <> 0 -> j <> nseg - 1 ->
          r !! j = Some 2%R).
Proof.
  intros Hnb Hnseg Hkids.
  destruct (get_num_neighbours_generic num_kids nseg nb Hnb Hnseg Hkids)
    as (r & Hr & Hlen & Hfirst & Hlast & Hrest).
  exists r. repeat split; try done.
  intros j Hj Hmod Hne. rewrite (Hrest j Hj Hmod Hne). simpl.
  f_equal. lra.
Qed.

(** The theorem at a three-branch cell with four compartments per branch. *)
Lemma get_num_neighbours_values_witness :
  exists r : list R,
    get_num_neighbours [2; 0; 0]%R 4 3 = Some r /\ length r = 12.
Proof.
  destruct (get_num_neighbours_values [2; 0; 0]%R 4 3)
    as (r & Hr & Hlen & _); [lia | lia | reflexivity |].
  exists r. split; [exact Hr | exact Hlen].
Defined.

(** C1, as stated, fails: with two branches of two compartments, the last
    compartment of branch 1 (flat index 3) holds 2, not 1. *)
Lemma get_num_neighbours_last_compartment_counterexample :
  exists r : list R,
    get_num_neighbours [1; 0]%R 2 2 = Some r
    /\ r !! (1 * 2 + (2 - 1)) = Some 2%R
    /\ r !! (1 * 2 + (2 - 1)) <> Some 1%R.
Proof.
  destruct (get_num_neighbours_generic [1; 0]%R 2 2)
    as (r & Hr & _ & _ & _ & Hrest); [lia | lia | reflexivity |].
  exists r. split; [exact Hr|].
  assert (H3 : r !! 3 = Some 2%R).
  { rewrite (Hrest 3); [simpl; f_equal; lra | lia | done | done]. }
  split; [exact H3|]. simpl. rewrite H3. intros [=]. lra.
Qed.

(** ** get_external_input *)

Lemma Rleb_true (x y : R) : Rleb x y = true <-> (x <= y)%R.
Proof. unfold Rleb. destruct (Rle_dec x y); split; intros; done. Qed.

Lemma Rleb_false (x y : R) : Rleb x y = false <-> (y < x)%R.
Proof.
  unfold Rleb. destruct (Rle_dec x y); split; intros; try done; lra.
Qed.

Section ExternalInput.
Context {F : Type} `{Scalar F}.

Lemma get_external_input_off (voltages : list F)
    (t i_dur i_amp radius len : F) (nseg : Z) :
  fge t (of_Z 5) && fle t (fadd (of_Z 5) i_dur) = false ->
  get_external_input voltages t i_dur i_amp radius len nseg
  = zeros_like voltages.
Proof. intros Hoff. unfold get_external_input. by rewrite Hoff. Qed.

Lemma get_external_input_on (voltages : list F)
    (t i_dur i_amp radius len : F) (nseg : Z) :
  fge t (of_Z 5) && fle t (fadd (of_Z 5) i_dur) = true ->
  get_external_input voltages t i_dur i_amp radius len nseg
  = at_set (zeros_like voltages) (nseg - 1)
      (fdiv (fdiv (fdiv (fdiv i_amp (of_Z 2)) fpi) radius) len).
Proof. intros Hon. unfold get_external_input. by rewrite Hon. Qed.

Lemma length_zeros_like (x : list F) : length (zeros_like x) = length x.
Proof. apply length_replicate. Qed.

Lemma zeros_like_lookup (x : list F) (j : nat) :
  j < length x -> zeros_like x !! j = Some (of_Z 0).
Proof. intros Hj. by apply lookup_replicate_2. Qed.

Lemma all_zero_zeros_like (x : list F) : all_zero (zeros_like x).
Proof. apply Forall_replicate. reflexivity. Qed.

Lemma length_get_external_input (voltages : list F)
    (t i_dur i_amp radius len : F) (nseg : Z) :
  length (get_external_input voltages t i_dur i_amp radius len nseg)
  = length voltages.
Proof.
  unfold get_external_input. destruct (_ && _).
  - by rewrite length_at_set, length_zeros_like.
  - apply length_zeros_like.
Qed.

(** Whatever the index, an update of the zero vector leaves at most the
    written position different from zero. *)
Lemma at_set_zeros_other (x : list F) (i : Z) (v : F) (j : nat) (y : F) :
  at_set (zeros_like x) i v !! j = Some y ->
  normalize_index (length x) i <> Some j ->
  y = of_Z 0.
Proof.
  unfold at_set. rewrite length_zeros_like.
  destruct (normalize_index (length x) i) as [k|] eqn:E; intros Hy Hne.
  - rewrite list_lookup_insert_ne in Hy by congruence.
    apply lookup_replicate_1 in Hy. tauto.
  - apply lookup_replicate_1 in Hy. tauto.
Qed.

(** C10. [get_external_input] reads its [voltages] argument only through
    its length: two voltage vectors of one length give the same current
    vector, all other arguments being equal. *)
Theorem get_external_input_voltages_irrelevant (v1 v2 : list F)
    (t i_dur i_amp radius len : F) (nseg : Z) :
  length v1 = length v2 ->
  get_external_input v1 t i_dur i_amp radius len nseg
  = get_external_input v2 t i_dur i_amp radius len nseg.
Proof.
  intros Hlen. unfold get_external_input, zeros_like. by rewrite Hlen.
Qed.

End ExternalInput.

(** The theorem at two voltage vectors of three compartments. *)
Lemma get_external_input_voltages_irrelevant_witness :
  get_external_input [(-65)%float; (-60)%float; 0%float]
    6%float 10%float 1%float 1%float 1%float 3
  = get_external_input [1%float; 2%float; 3%float]
    6%float 10%float 1%float 1%float 1%float 3.
Proof.
  apply (get_external_input_voltages_irrelevant
           [(-65)%float; (-60)%float; 0%float]
           [1%float; 2%float; 3%float]).
  reflexivity.
Defined.

(** The stimulus at a known input, in binary64: with [i_amp = 2 * pi],
    unit radius and unit length, the entry at [nseg_per_branch - 1] is 1. *)
Example get_external_input_unit_current :
  get_external_input [0; 0; 0]%float 5%float 10%float
    (2 * fpi)%float 1%float 1%float 3
  = [0; 0; 1]%float.
Proof. vm_compute. reflexivity. Qed.

Lemma stim_window_R (t i_dur : R) :
  fge t (of_Z 5) && fle t (fadd (of_Z 5) i_dur) = true
  <-> (5 <= t <= 5 + i_dur)%R.
Proof.
  simpl. rewrite andb_true_iff, !Rleb_true. tauto.
Qed.

Lemma stim_window_off_R (t i_dur : R) :
  (t < 5 \/ t > 5 + i_dur)%R ->
  fge t (of_Z 5) && fle t (fadd (of_Z 5) i_dur) = false.
Proof.
  intros Hout. apply not_true_is_false. rewrite stim_window_R. lra.
Qed.

Lemma current_density_R (i_amp radius len : R) :
  (i_amp / 2 / PI / radius / len = i_amp / (2 * PI * radius * len))%R.
Proof. unfold Rdiv. rewrite !Rinv_mult. ring. Qed.

(** C2, as amended. Outside the window, [t < 5] or [t > 5 + i_dur], the
    result is all zeros. Inside the window at most one entry is nonzero,
    and exactly one is when the current density
    [i_amp / 2 / pi / radius / length_single_compartment] is nonzero and
    [1 <= nseg_per_branch <= len(voltages)]. The window is given by the
    constant 5 and [i_dur] alone. *)
Theorem get_external_input_window (voltages : list R)
    (t i_dur i_amp radius len : R) (nseg : Z) :
  ((t < 5 \/ t > 5 + i_dur)%R ->
     all_zero (get_external_input voltages t i_dur i_amp radius len nseg))
  /\ ((5 <= t <= 5 + i_dur)%R ->
      forall i j x y,
        get_external_input voltages t i_dur i_amp radius len nseg !! i
          = Some x ->
        get_external_input voltages t i_dur i_amp radius len nseg !! j
          = Some y ->
        x <> 0%R -> y <> 0%R -> i = j)
  /\ ((5 <= t <= 5 + i_dur)%R ->
      (1 <= nseg <= Z.of_nat (length voltages))%Z ->
      (i_amp / 2 / PI / radius / len <> 0)%R ->
      only_nonzero_at
        (get_external_input voltages t i_dur i_amp radius len nseg)
        (Z.to_nat (nseg - 1))).
Proof.
  split; [|split].
  - intros Hout. rewrite get_external_input_off
      by (by apply stim_window_off_R).
    apply all_zero_zeros_like.
  - intros Hin i j x y Hx Hy Hx0 Hy0.
    rewrite get_external_input_on in Hx, Hy by (by apply stim_window_R).
    destruct (decide (normalize_index (length voltages) (nseg - 1) = Some i))
      as [Hi|Hi]; [|by apply at_set_zeros_other in Hx].
    destruct (decide (normalize_index (length voltages) (nseg - 1) = Some j))
      as [Hj|Hj]; [|by apply at_set_zeros_other in Hy].
    congruence.
  - intros Hin Hseg Hcur.
    rewrite get_external_input_on by (by apply stim_window_R).
    assert (Hidx : normalize_index (length voltages) (nseg - 1)
                   = Some (Z.to_nat (nseg - 1))).
    { rewrite <- (Z2Nat.id (nseg - 1)) at 1 by lia.
      apply normalize_index_in_range. lia. }
    split.
    + eexists. split; [|exact Hcur].
      unfold at_set. rewrite length_zeros_like, Hidx.
      apply list_lookup_insert_eq. rewrite length_zeros_like. lia.
    + intros j y Hy Hj. apply at_set_zeros_other in Hy; [done|].
      rewrite Hidx. congruence.
Qed.

(** The theorem inside the window, at [t = 6] with a unit amplitude. *)
Lemma get_external_input_window_witness :
  only_nonzero_at (get_external_input [0; 0; 0]%R 6%R 10%R 1%R 1%R 1%R 3) 2.
Proof.
  apply (get_external_input_window [0; 0; 0]%R 6%R 10%R 1%R 1%R 1%R 3).
  - lra.
  - simpl. lia.
  - apply Rgt_not_eq.
    repeat apply Rdiv_lt_0_compat; try apply PI_RGT_0; lra.
Defined.

(** C2, as stated, fails: inside the window with [i_amp = 0] the result
    has no nonzero entry. *)
Lemma get_external_input_zero_amplitude_counterexample :
  (5 <= 5 <= 5 + 10)%R
  /\ ~ exactly_one_nonzero (get_external_input [0; 0]%R 5%R 10%R 0%R 1%R 1%R 2).
Proof.
  split; [lra|]. intros [i [(x & Hx & Hx0) _]].
  rewrite get_external_input_on in Hx by (apply stim_window_R; lra).
  apply Hx0.
  destruct (decide (normalize_index (length [0; 0]%R) (2 - 1) = Some i))
    as [Hi|Hi]; [|by apply at_set_zeros_other in Hx].
  vm_compute in Hi. injection Hi as <-.
  unfold at_set in Hx. simpl in Hx. injection Hx as <-.
  real_scalars. unfold Rdiv. ring.
Qed.

(** C5. While the stimulus is on, the result has the length of
    [voltages], is zero away from the flat index [nseg_per_branch - 1],
    and holds [i_amp / (2 * pi * radius * length_single_compartment)]
    there; for [i_amp = 2 * pi] and unit radius and length that is 1. *)
Theorem get_external_input_active (voltages : list R)
    (t i_dur i_amp radius len : R) (nseg : nat) :
  (5 <= t <= 5 + i_dur)%R -> 1 <= nseg ->
  let out :=
    get_external_input voltages t i_dur i_amp radius len (Z.of_nat nseg) in
  length out = length voltages
  /\ (forall j, j < length voltages -> j <> nseg - 1 -> out !! j = Some 0%R)
  /\ (nseg <= length voltages ->
      out !! (nseg - 1) = Some (i_amp / (2 * PI * radius * len))%R)
  /\ (nseg <= length voltages ->
      i_amp = (2 * PI)%R -> radius = 1%R -> len = 1%R ->
      out !! (nseg - 1) = Some 1%R).
Proof.
  intros Hin Hseg out.
  assert (Hout : out = at_set (zeros_like voltages) (Z.of_nat (nseg - 1))
                         (i_amp / (2 * PI * radius * len))%R).
  { unfold out. rewrite get_external_input_on by (by apply stim_window_R).
    simpl. rewrite current_density_R. f_equal. lia. }
  assert (Hval : nseg <= length voltages ->
            out !! (nseg - 1) = Some (i_amp / (2 * PI * radius * len))%R).
  { intros Hlen. rewrite Hout, at_set_in_range
      by (rewrite length_zeros_like; lia).
    apply list_lookup_insert_eq. rewrite length_zeros_like. lia. }
  split; [apply length_get_external_input|].
  split; [|split; [exact Hval|]].
  - intros j Hj Hne.
    assert (Hsome : is_Some (out !! j)).
    { apply lookup_lt_is_Some. unfold out.
      by rewrite length_get_external_input. }
    destruct Hsome as [y Hy]. rewrite Hy. f_equal.
    rewrite Hout in Hy. apply at_set_zeros_other in Hy; [done|].
    unfold normalize_index.
    destruct (Z.ltb_spec (Z.of_nat (nseg - 1)) 0); [lia|].
    destruct (_ && _); [|done]. intros [=]. lia.
  - intros Hlen -> -> ->. rewrite (Hval Hlen). f_equal.
    field. apply PI_neq0.
Qed.

(** The theorem at the onset of the stimulus, [t = 5], with
    [i_amp = 2 * pi]. *)
Lemma get_external_input_active_witness :
  get_external_input [0; 0; 0]%R 5%R 10%R (2 * PI)%R 1%R 1%R 3 !! 2 = Some 1%R.
Proof.
  apply (get_external_input_active [0; 0; 0]%R 5%R 10%R (2 * PI)%R 1%R 1%R 3);
    [lra | lia | simpl; lia | reflexivity | reflexivity | reflexivity].
Defined.

(** ** define_all_tridiags *)

(** Lengths of lists built with [map] and [zip_with]. *)
Ltac list_lengths :=
  repeat first
    [ rewrite length_zip_with | rewrite length_fmap
    | rewrite length_map | rewrite length_replicate ].

Section Tridiags.
Context {F : Type} `{Scalar F}.

Lemma ewise2_same_length (f : F -> F -> F) (xs ys : list F) :
  length xs = length ys -> ewise2 f xs ys = Some (zip_with f xs ys).
Proof. intros Hlen. unfold ewise2. by rewrite decide_True. Qed.

Lemma ewise2_bind {B : Type} (f : F -> F -> F) (xs ys : list F)
    (k : list F -> option B) :
  length xs = length ys -> ewise2 f xs ys ≫= k = k (zip_with f xs ys).
Proof. intros Hlen. by rewrite ewise2_same_length. Qed.

Lemma clamp_index_of_nat (len k : nat) :
  clamp_index len (Z.of_nat k) = k `min` len.
Proof.
  unfold clamp_index. destruct (Z.ltb_spec (Z.of_nat k) 0); lia.
Qed.

(** The block of branch [b] in a vector of [nb * nseg] entries. *)
Lemma py_slice_block {A : Type} (l : list A) (nb nseg b : nat) :
  length l = nb * nseg -> b < nb ->
  py_slice l (Z.of_nat b * Z.of_nat nseg) ((Z.of_nat b + 1) * Z.of_nat nseg)
  = take nseg (drop (b * nseg) l).
Proof.
  intros Hlen Hb. unfold py_slice.
  replace (Z.of_nat b * Z.of_nat nseg)%Z with (Z.of_nat (b * nseg)) by lia.
  replace ((Z.of_nat b + 1) * Z.of_nat nseg)%Z
    with (Z.of_nat ((b + 1) * nseg)) by lia.
  rewrite !clamp_index_of_nat, Hlen.
  assert (E1 : (b * nseg) `min` (nb * nseg) = b * nseg) by nia.
  assert (E2 : ((b + 1) * nseg) `min` (nb * nseg) = (b + 1) * nseg)
    by nia.
  rewrite E1, E2.
  replace ((b + 1) * nseg - b * nseg) with nseg by nia. done.
Qed.

Lemma block_length {A : Type} (l : list A) (nb nseg b : nat) :
  length l = nb * nseg -> b < nb ->
  length (take nseg (drop (b * nseg) l)) = nseg.
Proof. intros Hlen Hb. rewrite length_take, length_drop. nia. Qed.

Lemma block_lookup {A : Type} (l : list A) (nseg b i : nat) :
  i < nseg -> take nseg (drop (b * nseg) l) !! i = l !! (b * nseg + i).
Proof.
  intros Hi. rewrite lookup_take, decide_True by done. apply lookup_drop.
Qed.

(** One branch with six inputs of one length: the call succeeds, and its
    diagonal and right-hand side are given entry by entry. *)
Lemma define_tridiag_for_branch_entries
    (voltages na_conds kd_conds leak_conds i_ext num_neighbours : list F)
    (dt coupling_conds : F) (nseg : Z) (n : nat) :
  length voltages = n -> length na_conds = n -> length kd_conds = n ->
  length leak_conds = n -> length i_ext = n -> length num_neighbours = n ->
  exists a_v b_v,
    _define_tridiag_for_branch voltages na_conds kd_conds leak_conds i_ext
      dt num_neighbours coupling_conds nseg
    = Some (replicate (Z.to_nat (nseg - 1)) (fmul (fneg dt) coupling_conds),
            a_v,
            replicate (Z.to_nat (nseg - 1)) (fmul (fneg dt) coupling_conds),
            b_v)
    /\ length a_v = n /\ length b_v = n
    /\ forall i v na kd leak ie nn,
         voltages !! i = Some v -> na_conds !! i = Some na ->
         kd_conds !! i = Some kd -> leak_conds !! i = Some leak ->
         i_ext !! i = Some ie -> num_neighbours !! i = Some nn ->
         a_v !! i
         = Some (fadd (fadd (of_Z 1) (fmul dt (fadd (fadd na kd) leak)))
                      (fmul (fmul dt nn) coupling_conds))
         /\ b_v !! i
            = Some (fadd v
                     (fmul dt
                        (fadd (fadd (fadd (fmul (of_Z 50) na)
                                          (fmul (of_Z (-90)) kd))
                                    (fmul (of_Z (-65)) leak))
                              ie))).
Proof.
  intros Hv Hna Hkd Hleak Hie Hnn. unfold _define_tridiag_for_branch.
  repeat (rewrite ewise2_bind by (list_lengths; lia); cbv beta).
  eexists _, _. split; [reflexivity|].
  change (map ?f ?l) with (f <$> l).
  split; [list_lengths; lia|].
  split; [list_lengths; lia|].
  intros i v na kd leak ie nn Ev Ena Ekd Eleak Eie Enn.
  rewrite !lookup_zip_with, !list_lookup_fmap, !lookup_zip_with,
    ?list_lookup_fmap, ?lookup_zip_with, ?list_lookup_fmap.
  rewrite Ev, Ena, Ekd, Eleak, Eie, Enn. simpl. done.
Qed.

Lemma asarray_rows_same_length (rows : list (list F)) (n : nat) :
  Forall (fun r => length r = n) rows -> asarray_rows rows = Some rows.
Proof.
  intros Hrows. destruct rows as [|r rows]; [done|].
  unfold asarray_rows.
  assert (Hr : length r = n) by (by inversion Hrows).
  replace (forallb _ (r :: rows)) with true; [done|].
  symmetry. apply forallb_forall. intros r' Hr'.
  apply Nat.eqb_eq. rewrite Hr.
  rewrite Forall_forall in Hrows. by apply Hrows.
Qed.

(** The loop appends, branch after branch, what the call for one branch
    returns. *)
Lemma tridiag_loop_appends
    (voltages na_conds kd_conds leak_conds i_ext num_neighbours : list F)
    (nseg : Z) (dt coupling_conds : F) (bs : list Z)
    (rs : list (list F * list F * list F * list F))
    (lowers diags uppers solves : list (list F)) :
  Forall2
    (fun b r =>
       _define_tridiag_for_branch
         (py_slice voltages (b * nseg) ((b + 1) * nseg))
         (py_slice na_conds (b * nseg) ((b + 1) * nseg))
         (py_slice kd_conds (b * nseg) ((b + 1) * nseg))
         (py_slice leak_conds (b * nseg) ((b + 1) * nseg))
         (py_slice i_ext (b * nseg) ((b + 1) * nseg)) dt
         (py_slice num_neighbours (b * nseg) ((b + 1) * nseg))
         coupling_conds nseg = Some r) bs rs ->
  tridiag_loop voltages na_conds kd_conds leak_conds i_ext num_neighbours
    nseg dt coupling_conds bs lowers diags uppers solves
  = Some (lowers ++ ((fun r => r.1.1.1) <$> rs),
          diags ++ ((fun r => r.1.1.2) <$> rs),
          uppers ++ ((fun r => r.1.2) <$> rs),
          solves ++ ((fun r => r.2) <$> rs)).
Proof.
  intros Hrs. revert lowers diags uppers solves.
  induction Hrs as [|b r bs rs Hr _ IH]; intros lowers diags uppers solves.
  - simpl. by rewrite !app_nil_r.
  - destruct r as [[[lower diag] upper] solve].
    cbn [tridiag_loop]. rewrite Hr. cbn [mbind option_bind].
    rewrite IH. cbn [fmap list_fmap fst snd]. by rewrite <- !app_assoc.
Qed.

(** [define_all_tridiags] on six vectors of [nb * nseg] entries: the call
    succeeds, all off-diagonals are constant, and the diagonal and the
    right-hand side of branch [b] are given entry by entry from the
    entries [b * nseg + i] of the inputs. *)
Lemma define_all_tridiags_generic
    (voltages na_conds kd_conds leak_conds i_ext num_neighbours : list F)
    (nseg nb : nat) (dt coupling_conds : F) :
  length voltages = nb * nseg -> length na_conds = nb * nseg ->
  length kd_conds = nb * nseg -> length leak_conds = nb * nseg ->
  length i_ext = nb * nseg -> length num_neighbours = nb * nseg ->
  exists diags solves,
    define_all_tridiags voltages na_conds kd_conds leak_conds i_ext
      num_neighbours (Z.of_nat nseg) (Z.of_nat nb) dt coupling_conds
    = Some (replicate nb
              (replicate (nseg - 1) (fmul (fneg dt) coupling_conds)),
            diags,
            replicate nb
              (replicate (nseg - 1) (fmul (fneg dt) coupling_conds)),
            solves)
    /\ length diags = nb /\ length solves = nb
    /\ forall b, b < nb ->
       exists diag rhs,
         diags !! b = Some diag /\ solves !! b = Some rhs
         /\ length diag = nseg /\ length rhs = nseg
         /\ forall i v na kd leak ie nn,
              i < nseg ->
              voltages !! (b * nseg + i) = Some v ->
              na_conds !! (b * nseg + i) = Some na ->
              kd_conds !! (b * nseg + i) = Some kd ->
              leak_conds !! (b * nseg + i) = Some leak ->
              i_ext !! (b * nseg + i) = Some ie ->
              num_neighbours !! (b * nseg + i) = Some nn ->
              diag !! i
              = Some (fadd (fadd (of_Z 1) (fmul dt (fadd (fadd na kd) leak)))
                           (fmul (fmul dt nn) coupling_conds))
              /\ rhs !! i
                 = Some (fadd v
                          (fmul dt
                             (fadd (fadd (fadd (fmul (of_Z 50) na)
                                               (fmul (of_Z (-90)) kd))
                                         (fmul (of_Z (-65)) leak))
                                   ie))).
Proof.
  intros Hv Hna Hkd Hleak Hie Hnn.
  set (off := replicate (nseg - 1) (fmul (fneg dt) coupling_conds)).
  set (call := fun b : Z =>
    _define_tridiag_for_branch
      (py_slice voltages (b * Z.of_nat nseg) ((b + 1) * Z.of_nat nseg))
      (py_slice na_conds (b * Z.of_nat nseg) ((b + 1) * Z.of_nat nseg))
      (py_slice kd_conds (b * Z.of_nat nseg) ((b + 1) * Z.of_nat nseg))
      (py_slice leak_conds (b * Z.of_nat nseg) ((b + 1) * Z.of_nat nseg))
      (py_slice i_ext (b * Z.of_nat nseg) ((b + 1) * Z.of_nat nseg)) dt
      (py_slice num_neighbours (b * Z.of_nat nseg)
         ((b + 1) * Z.of_nat nseg))
      coupling_conds (Z.of_nat nseg)).
  (* every branch call succeeds, with the entries of its block *)
  assert (Hcall : forall b, b < nb ->
    exists a_v b_v,
      call (Z.of_nat b) = Some (off, a_v, off, b_v)
      /\ length a_v = nseg /\ length b_v = nseg
      /\ forall i v na kd leak ie nn,
           i < nseg ->
           voltages !! (b * nseg + i) = Some v ->
           na_conds !! (b * nseg + i) = Some na ->
           kd_conds !! (b * nseg + i) = Some kd ->
           leak_conds !! (b * nseg + i) = Some leak ->
           i_ext !! (b * nseg + i) = Some ie ->
           num_neighbours !! (b * nseg + i) = Some nn ->
           a_v !! i
           = Some (fadd (fadd (of_Z 1) (fmul dt (fadd (fadd na kd) leak)))
                        (fmul (fmul dt nn) coupling_conds))
           /\ b_v !! i
              = Some (fadd v
                       (fmul dt
                          (fadd (fadd (fadd (fmul (of_Z 50) na)
                                            (fmul (of_Z (-90)) kd))
                                      (fmul (of_Z (-65)) leak))
                                ie)))).
  { intros b Hb. unfold call.
    rewrite !(py_slice_block _ nb) by done.
    destruct (define_tridiag_for_branch_entries
                (take nseg (drop (b * nseg) voltages))
                (take nseg (drop (b * nseg) na_conds))
                (take nseg (drop (b * nseg) kd_conds))
                (take nseg (drop (b * nseg) leak_conds))
                (take nseg (drop (b * nseg) i_ext))
                (take nseg (drop (b * nseg) num_neighbours))
                dt coupling_conds (Z.of_nat nseg) nseg)
      as (a_v & b_v & Hres & Ha & Hb' & Hent);
      try (by apply block_length with nb).
    exists a_v, b_v.
    replace (Z.to_nat (Z.of_nat nseg - 1)) with (nseg - 1) in Hres by lia.
    split; [exact Hres|]. split; [done|]. split; [done|].
    intros i v na kd leak ie nn Hi Ev Ena Ekd Eleak Eie Enn.
    apply Hent; by rewrite block_lookup. }
  (* the loop returns the results of the calls *)
  assert (Hall : exists rs, mapM call (arange (Z.of_nat nb)) = Some rs).
  { apply (mapM_is_Some call). apply Forall_forall. intros z Hz.
    unfold arange in Hz. rewrite Nat2Z.id in Hz.
    apply list_elem_of_In, list_elem_of_fmap in Hz as (b & -> & Hb).
    apply elem_of_seq in Hb.
    unfold compose. destruct (Hcall b) as (a_v & b_v & -> & _); [lia|]. done. }
  destruct Hall as [rs Hrs]. apply mapM_Some_1 in Hrs.
  assert (Hlen : length rs = nb).
  { apply Forall2_length in Hrs. rewrite <- Hrs. unfold arange.
    by rewrite length_map, length_seq, Nat2Z.id. }
  assert (Hlook : forall b r, rs !! b = Some r -> call (Z.of_nat b) = Some r).
  { intros b r Hr.
    destruct (Forall2_lookup_r _ _ _ _ _ Hrs Hr) as (z & Hz & Hzr).
    unfold arange in Hz. rewrite Nat2Z.id in Hz.
    change (map ?f ?l) with (f <$> l) in Hz.
    rewrite list_lookup_fmap in Hz.
    destruct (seq 0 nb !! b) as [b'|] eqn:E; simplify_eq/=.
    apply lookup_seq in E as [-> _]. done. }
  assert (Hoff1 :
    (fun r : list F * list F * list F * list F => r.1.1.1) <$> rs
    = replicate nb off).
  { symmetry. apply replicate_as_Forall. split; [by rewrite length_fmap|].
    apply Forall_fmap, Forall_lookup. intros b r Hr. simpl.
    pose proof (Hlook b r Hr) as Hc.
    destruct (Hcall b) as (a_v & b_v & Hc' & _).
    { rewrite <- Hlen. by eapply lookup_lt_Some. }
    rewrite Hc in Hc'. by injection Hc' as ->. }
  assert (Hoff2 :
    (fun r : list F * list F * list F * list F => r.1.2) <$> rs
    = replicate nb off).
  { symmetry. apply replicate_as_Forall. split; [by rewrite length_fmap|].
    apply Forall_fmap, Forall_lookup. intros b r Hr. simpl.
    pose proof (Hlook b r Hr) as Hc.
    destruct (Hcall b) as (a_v & b_v & Hc' & _).
    { rewrite <- Hlen. by eapply lookup_lt_Some. }
    rewrite Hc in Hc'. by injection Hc' as ->. }
  assert (Hrows : forall (g : list F * list F * list F * list F -> list F),
            (forall b r, rs !! b = Some r -> length (g r) = nseg) ->
            asarray_rows (g <$> rs) = Some (g <$> rs)).
  { intros g Hg. apply asarray_rows_same_length with nseg.
    apply Forall_fmap, Forall_lookup. intros b r Hr. by apply (Hg b). }
  unfold define_all_tridiags.
  rewrite (tridiag_loop_appends _ _ _ _ _ _ _ _ _ _ rs) by exact Hrs.
  cbn [mbind option_bind app]. rewrite Hoff1, Hoff2.
  rewrite (asarray_rows_same_length (replicate nb off) (nseg - 1))
    by (apply Forall_replicate; apply length_replicate).
  rewrite !Hrows.
  - cbn [mbind option_bind]. eexists _, _. split; [reflexivity|].
    split; [by rewrite length_fmap|]. split; [by rewrite length_fmap|].
    intros b Hb.
    destruct (lookup_lt_is_Some_2 rs b) as [r Hr]; [lia|].
    pose proof (Hlook b r Hr) as Hc.
    destruct (Hcall b Hb) as (a_v & b_v & Hc' & Ha & Hb' & Hent).
    rewrite Hc in Hc'. injection Hc' as ->.
    exists a_v, b_v. rewrite !list_lookup_fmap, Hr. simpl.
    do 4 (split; [done|]). exact Hent.
  - intros b r Hr. pose proof (Hlook b r Hr) as Hc.
    destruct (Hcall b) as (a_v & b_v & Hc' & Ha & Hb' & _).
    { rewrite <- Hlen. by eapply lookup_lt_Some. }
    rewrite Hc in Hc'. by injection Hc' as ->.
  - intros b r Hr. pose proof (Hlook b r Hr) as Hc.
    destruct (Hcall b) as (a_v & b_v & Hc' & Ha & Hb' & _).
    { rewrite <- Hlen. by eapply lookup_lt_Some. }
    rewrite Hc in Hc'. by injection Hc' as ->.
Qed.

End Tridiags.

Lemma concat_blocks {A : Type} (rows : list (list A)) (n : nat)
    (f : nat -> A) :
  (forall b row, rows !! b = Some row ->
     length row = n /\ forall i, i < n -> row !! i = Some (f (b * n + i))) ->
  concat rows = f <$> seq 0 (length rows * n).
Proof.
  induction rows as [|row rows IH] using rev_ind; intros Hrows; [done|].
  rewrite concat_app, length_app. simpl. rewrite app_nil_r.
  replace ((length rows + 1) * n) with (length rows * n + n) by lia.
  rewrite seq_app, fmap_app. simpl. f_equal.
  - apply IH. intros b r Hr. apply Hrows.
    by rewrite lookup_app_l by (by eapply lookup_lt_Some).
  - destruct (Hrows (length rows) row) as [Hlen Hrow].
    { by rewrite lookup_app_r, Nat.sub_diag by done. }
    apply list_eq. intros i. rewrite list_lookup_fmap.
    destruct (decide (i < n)) as [Hi|Hi].
    + by rewrite lookup_seq_lt, Hrow by done.
    + rewrite lookup_seq_ge by lia. simpl. apply lookup_ge_None. lia.
Qed.

Lemma lookup_nth_R (l : list R) (k : nat) :
  k < length l -> l !! k = Some (nth k l 0%R).
Proof.
  intros Hk. rewrite nth_lookup.
  by destruct (lookup_lt_is_Some_2 l k Hk) as [x ->].
Qed.

(** The entries of [define_all_tridiags] over the real numbers, in the
    words of the specification. *)
Lemma define_all_tridiags_R
    (voltages na_conds kd_conds leak_conds i_ext num_neighbours : list R)
    (nseg nb : nat) (dt coupling_conds : R) :
  length voltages = nb * nseg -> length na_conds = nb * nseg ->
  length kd_conds = nb * nseg -> length leak_conds = nb * nseg ->
  length i_ext = nb * nseg -> length num_neighbours = nb * nseg ->
  exists diags solves,
    define_all_tridiags voltages na_conds kd_conds leak_conds i_ext
      num_neighbours (Z.of_nat nseg) (Z.of_nat nb) dt coupling_conds
    = Some (replicate nb (replicate (nseg - 1) (- dt * coupling_conds)%R),
            diags,
            replicate nb (replicate (nseg - 1) (- dt * coupling_conds)%R),
            solves)
    /\ length diags = nb /\ length solves = nb
    /\ forall b, b < nb ->
       exists diag rhs,
         diags !! b = Some diag /\ solves !! b = Some rhs
         /\ length diag = nseg /\ length rhs = nseg
         /\ (forall i, i < nseg ->
               diag !! i
               = Some (expected_diag dt na_conds kd_conds leak_conds
                         num_neighbours coupling_conds (b * nseg + i)))
         /\ (forall i, i < nseg ->
               rhs !! i
               = Some (expected_rhs dt voltages na_conds kd_conds leak_conds
                         i_ext (b * nseg + i))).
Proof.
  intros Hv Hna Hkd Hleak Hie Hnn.
  destruct (define_all_tridiags_generic voltages na_conds kd_conds
              leak_conds i_ext num_neighbours nseg nb dt coupling_conds)
    as (diags & solves & Hres & Hd & Hs & Hent); try done.
  exists diags, solves. split; [exact Hres|]. split; [done|].
  split; [done|]. intros b Hb.
  destruct (Hent b Hb) as (diag & rhs & Ed & Er & Ld & Lr & Hval).
  exists diag, rhs. do 4 (split; [done|]).
  assert (Hk : forall i, i < nseg -> b * nseg + i < nb * nseg) by nia.
  split; intros i Hi;
    destruct (Hval i (nth (b * nseg + i) voltages 0%R)
                (nth (b * nseg + i) na_conds 0%R)
                (nth (b * nseg + i) kd_conds 0%R)
                (nth (b * nseg + i) leak_conds 0%R)
                (nth (b * nseg + i) i_ext 0%R)
                (nth (b * nseg + i) num_neighbours 0%R) Hi)
      as [Ha Hb']; try (apply lookup_nth_R; specialize (Hk i Hi); lia).
  - rewrite Ha. unfold expected_diag. real_scalars. f_equal; ring.
  - rewrite Hb'. unfold expected_rhs. real_scalars. f_equal; ring.
Qed.

(** C3. For six input vectors of [nb * nseg] entries,
    [define_all_tridiags] returns, for every branch [b], a diagonal and a
    right-hand side of [nseg] entries with
    [a_v = 1 + dt * (na + kd + leak) + dt * num_neighbours * coupling_conds]
    and [b_v = voltages + dt * (50 na - 90 kd - 65 leak + i_ext)] at every
    compartment of the block, and upper and lower off-diagonals of
    [nseg - 1] entries all equal to [- dt * coupling_conds]. *)
Theorem define_all_tridiags_coefficients
    (voltages na_conds kd_conds leak_conds i_ext num_neighbours : list R)
    (nseg nb : nat) (dt coupling_conds : R) :
  length voltages = nb * nseg -> length na_conds = nb * nseg ->
  length kd_conds = nb * nseg -> length leak_conds = nb * nseg ->
  length i_ext = nb * nseg -> length num_neighbours = nb * nseg ->
  exists lowers diags uppers solves,
    define_all_tridiags voltages na_conds kd_conds leak_conds i_ext
      num_neighbours (Z.of_nat nseg) (Z.of_nat nb) dt coupling_conds
    = Some (lowers, diags, uppers, solves)
    /\ length lowers = nb /\ length diags = nb
    /\ length uppers = nb /\ length solves = nb
    /\ forall b, b < nb ->
       exists lower diag upper rhs,
         lowers !! b = Some lower /\ diags !! b = Some diag
         /\ uppers !! b = Some upper /\ solves !! b = Some rhs
         /\ length diag = nseg /\ length rhs = nseg
         /\ (forall i, i < nseg ->
               diag !! i
               = Some (expected_diag dt na_conds kd_conds leak_conds
                         num_neighbours coupling_conds (b * nseg + i)))
         /\ (forall i, i < nseg ->
               rhs !! i
               = Some (expected_rhs dt voltages na_conds kd_conds leak_conds
                         i_ext (b * nseg + i)))
         /\ length upper = nseg - 1 /\ length lower = nseg - 1
         /\ Forall (fun x => x = (- dt * coupling_conds)%R) upper
         /\ Forall (fun x => x = (- dt * coupling_conds)%R) lower.
Proof.
  intros Hv Hna Hkd Hleak Hie Hnn.
  destruct (define_all_tridiags_R voltages na_conds kd_conds leak_conds
              i_ext num_neighbours nseg nb dt coupling_conds)
    as (diags & solves & Hres & Hd & Hs & Hent); try done.
  eexists _, diags, _, solves. split; [exact Hres|].
  rewrite !length_replicate. do 4 (split; [done|]).
  intros b Hb.
  destruct (Hent b Hb) as (diag & rhs & Ed & Er & Ld & Lr & Ha & Hr).
  exists (replicate (nseg - 1) (- dt * coupling_conds)%R), diag,
    (replicate (nseg - 1) (- dt * coupling_conds)%R), rhs.
  rewrite !lookup_replicate_2, !length_replicate by done.
  do 8 (split; [done|]).
  split; [done|]. split; [done|].
  split; by apply Forall_replicate.
Qed.

(** The theorem at a cell of two branches with two compartments each. *)
Lemma define_all_tridiags_coefficients_witness :
  exists lowers diags uppers solves : list (list R),
    define_all_tridiags [1; 2; 3; 4]%R [1; 0; 0; 0]%R [0; 1; 0; 0]%R
      [0; 0; 1; 0]%R [0; 0; 0; 1]%R [1; 2; 2; 1]%R 2 2 (1 / 2)%R 3%R
    = Some (lowers, diags, uppers, solves)
    /\ length diags = 2.
Proof.
  destruct (define_all_tridiags_coefficients
              [1; 2; 3; 4]%R [1; 0; 0; 0]%R [0; 1; 0; 0]%R
              [0; 0; 1; 0]%R [0; 0; 0; 1]%R [1; 2; 2; 1]%R 2 2
              (1 / 2)%R 3%R)
    as (lowers & diags & uppers & solves & Hres & _ & Hd & _);
    try reflexivity.
  exists lowers, diags, uppers, solves. split; [exact Hres | exact Hd].
Defined.

(** C6. Concatenating, in branch order, the right-hand sides returned by
    [define_all_tridiags] gives, entry for entry, the vector
    [voltages + dt * (50 na - 90 kd - 65 leak + i_ext)] computed on the
    unpartitioned inputs. *)
Theorem define_all_tridiags_rhs_in_branch_order
    (voltages na_conds kd_conds leak_conds i_ext num_neighbours : list R)
    (nseg nb : nat) (dt coupling_conds : R) :
  1 <= nb -> 1 <= nseg ->
  length voltages = nb * nseg -> length na_conds = nb * nseg ->
  length kd_conds = nb * nseg -> length leak_conds = nb * nseg ->
  length i_ext = nb * nseg -> length num_neighbours = nb * nseg ->
  exists lowers diags uppers solves,
    define_all_tridiags voltages na_conds kd_conds leak_conds i_ext
      num_neighbours (Z.of_nat nseg) (Z.of_nat nb) dt coupling_conds
    = Some (lowers, diags, uppers, solves)
    /\ concat solves
       = expected_rhs dt voltages na_conds kd_conds leak_conds i_ext
         <$> seq 0 (nb * nseg).
Proof.
  intros _ _ Hv Hna Hkd Hleak Hie Hnn.
  destruct (define_all_tridiags_R voltages na_conds kd_conds leak_conds
              i_ext num_neighbours nseg nb dt coupling_conds)
    as (diags & solves & Hres & Hd & Hs & Hent); try done.
  eexists _, diags, _, solves. split; [exact Hres|].
  rewrite <- Hs. apply concat_blocks. intros b rhs Hrhs.
  destruct (Hent b) as (diag & rhs' & _ & Er & _ & Lr & _ & Hr).
  { rewrite <- Hs. by eapply lookup_lt_Some. }
  rewrite Hrhs in Er. injection Er as <-. done.
Qed.

(** The theorem at the same cell of two branches. *)
Lemma define_all_tridiags_rhs_in_branch_order_witness :
  exists lowers diags uppers solves : list (list R),
    define_all_tridiags [1; 2; 3; 4]%R [1; 0; 0; 0]%R [0; 1; 0; 0]%R
      [0; 0; 1; 0]%R [0; 0; 0; 1]%R [1; 2; 2; 1]%R 2 2 (1 / 2)%R 3%R
    = Some (lowers, diags, uppers, solves)
    /\ length (concat solves) = 4.
Proof.
  destruct (define_all_tridiags_rhs_in_branch_order
              [1; 2; 3; 4]%R [1; 0; 0; 0]%R [0; 1; 0; 0]%R
              [0; 0; 1; 0]%R [0; 0; 0; 1]%R [1; 2; 2; 1]%R 2 2
              (1 / 2)%R 3%R)
    as (lowers & diags & uppers & solves & Hres & Hcat);
    try reflexivity; try lia.
  exists lowers, diags, uppers, solves. split; [exact Hres|].
  rewrite Hcat. reflexivity.
Defined.

(** The assembly of a two-branch cell in binary64. *)
Example define_all_tridiags_two_branches :
  define_all_tridiags [1; 2; 3; 4]%float [1; 2; 3; 4]%float
    [1; 2; 3; 4]%float [1; 2; 3; 4]%float [1; 2; 3; 4]%float
    [1; 2; 3; 4]%float 2 2 0.5%float 2%float
  = Some ([[-1]; [-1]], [[3.5; 6]; [8.5; 11]], [[-1]; [-1]],
          [[-51; -102]; [-153; -204]])%float.
Proof. vm_compute. reflexivity. Qed.

(** ** solve *)

Section Driver.
Context {F : Type} `{Scalar F}.
Variable imports : Imports F.

(** One iteration of the loop on a state built by [loop_state]. *)
Lemma body_fun_loop_state (g : Globals) (cell : Cell F)
    (stimulus : Stimulus F) (dt : F) (params : list F)
    (i : Z) (t : F) (u sv u' : list F) (u0 : F) :
  find_root imports g t u params (i_delay stimulus) (i_amp stimulus)
    (i_dur stimulus) dt (radius cell) (length_single_compartment cell)
    (num_neighbours cell) (coupling_conds cell)
    (branches_in_each_level cell) (parents cell) = Some u' ->
  u' !! 0 = Some u0 ->
  body_fun imports g i (loop_state cell stimulus dt params t u sv)
  = Some (loop_state cell stimulus dt params (fadd t dt) u'
            (at_set sv i u0)).
Proof.
  intros Hroot Hhead. unfold body_fun, loop_state. cbn [st_t st_u st_params
    st_i_delay st_i_amp st_i_dur st_dt st_radius
    st_length_single_compartment st_num_neighbours st_coupling_conds
    st_branches_in_each_level st_parents st_saveat].
  rewrite Hroot. cbn [mbind option_bind]. rewrite Hhead. done.
Qed.

(** The buffer keeps its length through the loop. *)
Lemma fori_loop_from_saveat_length (g : Globals) (k : nat) (i : Z)
    (s s' : LoopState F) :
  fori_loop_from (body_fun imports g) i k s = Some s' ->
  length (st_saveat s') = length (st_saveat s).
Proof.
  revert i s. induction k as [|k IH]; intros i s Hloop; simpl in Hloop.
  - by injection Hloop as ->.
  - destruct (body_fun imports g i s) as [s1|] eqn:Hbody; [|done].
    cbn [mbind option_bind] in Hloop.
    destruct (carry_same_shape s s1); [|done].
    rewrite (IH _ _ Hloop).
    unfold body_fun in Hbody.
    destruct (find_root _ _ _ _ _ _ _ _ _ _ _ _ _ _ _) as [u1|]; [|done].
    cbn [mbind option_bind] in Hbody.
    destruct (u1 !! 0) as [u0|]; [|done].
    injection Hbody as <-. simpl. apply length_at_set.
Qed.

(** The loop invariant: after [k] iterations started at index [i], the
    buffer holds at [i + j] the first entry of the state after step
    [j + 1], and is as before elsewhere. *)
Lemma fori_loop_from_records (g : Globals) (cell : Cell F)
    (stimulus : Stimulus F) (dt : F) (params : list F) (k : nat) :
  forall (i : nat) (t : F) (u sv : list F) (us : list (list F)),
    trajectory imports g cell stimulus dt params k t u = Some us ->
    Forall (fun u' => length u' = length u /\ 0 < length u') us ->
    i + k <= length sv ->
    exists s',
      fori_loop_from (body_fun imports g) (Z.of_nat i) k
        (loop_state cell stimulus dt params t u sv) = Some s'
      /\ (forall j, j < k ->
            st_saveat s' !! (i + j) = us !! j ≫= (fun u' => u' !! 0))
      /\ (forall p, p < i \/ i + k <= p -> st_saveat s' !! p = sv !! p).
Proof.
  induction k as [|k IH]; intros i t u sv us Htraj Hus Hi.
  - simpl. eexists. split; [reflexivity|]. split; [lia|done].
  - cbn [trajectory] in Htraj.
    destruct (find_root _ _ _ _ _ _ _ _ _ _ _ _ _ _ _) as [u1|] eqn:Hroot;
      [|done].
    cbn [mbind option_bind] in Htraj.
    destruct (trajectory _ _ _ _ _ _ k _ u1) as [us1|] eqn:Hrest; [|done].
    injection Htraj as <-.
    apply Forall_cons_iff in Hus as [[Hlen Hpos] Hus].
    destruct (lookup_lt_is_Some_2 u1 0 Hpos) as [u0 Hu0].
    destruct (IH (S i) (fadd t dt) u1 (at_set sv (Z.of_nat i) u0) us1)
      as (s' & Hloop & Hin & Hout).
    + exact Hrest.
    + eapply Forall_impl; [|exact Hus]. simpl. intros u2 [? ?]. lia.
    + rewrite length_at_set. lia.
    + exists s'. split; [|split].
      * cbn [fori_loop_from].
        rewrite (body_fun_loop_state g cell stimulus dt params _ t u sv u1 u0)
          by done.
        cbn [mbind option_bind]. unfold carry_same_shape.
        cbn [loop_state st_u]. rewrite Hlen, Nat.eqb_refl.
        replace (Z.of_nat i + 1)%Z with (Z.of_nat (S i)) by lia.
        exact Hloop.
      * intros [|j] Hj.
        -- rewrite Nat.add_0_r, Hout by lia. simpl. rewrite Hu0.
           rewrite at_set_in_range by lia.
           apply list_lookup_insert_eq. lia.
        -- replace (i + S j) with (S i + j) by lia. rewrite Hin by lia.
           done.
      * intros p Hp. rewrite Hout by lia.
        rewrite at_set_in_range by lia.
        apply list_lookup_insert_ne. lia.
Qed.

(** After the two assignments of [solve] nothing is left of the globals
    as they were found. *)
Lemma globals_after_assignments (g0 : Globals) (nb nseg : Z) :
  set_NSEG_PER_BRANCH nseg (set_NUM_BRANCHES nb g0)
  = {| NUM_BRANCHES := nb; NSEG_PER_BRANCH := nseg |}.
Proof. unfold set_NSEG_PER_BRANCH, set_NUM_BRANCHES. reflexivity. Qed.






(** C4. What [solve] returns is the recording buffer and nothing else: a
    vector of exactly 1000 entries. When each of the 1000 steps succeeds
    and keeps the length of a nonempty state vector, [solve] returns, and
    entry [i] of the result is the voltage of compartment 0 (the first
    entry of the state vector) after step [i + 1]. *)
Theorem solve_returns_trace (g0 : Globals) (cell : Cell F) (dt : F)
    (u params : list F) (stimulus : Stimulus F) :
  (forall r, (solve imports g0 cell dt u params stimulus).1 = Some r ->
     length r = 1000)
  /\ forall us,
       trajectory imports
         {| NUM_BRANCHES := num_branches cell;
            NSEG_PER_BRANCH := nseg_per_branch cell |}
         cell stimulus dt params 1000 (of_Z 0) u = Some us ->
       Forall (fun u' => length u' = length u /\ 0 < length u') us ->
       exists r,
         (solve imports g0 cell dt u params stimulus).1 = Some r
         /\ length r = 1000
         /\ forall i, i < 1000 ->
              r !! i = us !! i ≫= (fun u' => u' !! 0).
Proof.
  assert (Hlen : forall r,
            (solve imports g0 cell dt u params stimulus).1 = Some r ->
            length r = 1000).
  { intros r Hr. unfold solve, fori_loop in Hr. cbn [fst] in Hr.
    destruct (fori_loop_from _ _ _ _) as [s'|] eqn:Hloop; [|done].
    injection Hr as <-.
    rewrite (fori_loop_from_saveat_length _ _ _ _ _ Hloop).
    cbn [loop_state st_saveat]. apply length_replicate. }
  split; [exact Hlen|].
  intros us Htraj Hus.
  destruct (fori_loop_from_records _ cell stimulus dt params 1000 0
              (of_Z 0) u (replicate 1000 (of_Z 0)) us Htraj Hus)
    as (s' & Hloop & Hin & _).
  { rewrite length_replicate. lia. }
  assert (Hsolve : (solve imports g0 cell dt u params stimulus).1
                   = Some (st_saveat s')).
  { unfold solve, fori_loop. cbn [fst]. rewrite globals_after_assignments.
    change (Z.to_nat (1000 - 0)) with 1000.
    change (Z.of_nat 0) with 0%Z in Hloop. by rewrite Hloop. }
  exists (st_saveat s'). split; [exact Hsolve|].
  split; [by apply Hlen|]. intros i Hi. by apply (Hin i).
Qed.

End Driver.

(** The theorem at the example run: all 1000 steps succeed in binary64. *)
Lemma solve_returns_trace_witness :
  exists r,
    (solve uncoupled_imports initial_globals example_cell example_dt
       example_u example_params example_stimulus).1 = Some r
    /\ length r = 1000.
Proof.
  destruct (solve_returns_trace uncoupled_imports initial_globals
              example_cell example_dt example_u example_params
              example_stimulus) as [_ Hrun].
  edestruct Hrun as (r & Hr & Hlen & _).
  - vm_compute. reflexivity.
  - apply (bool_decide_unpack _). vm_compute. exact I.
  - exists r. split; [exact Hr | exact Hlen].
Defined.



(** ** find_root *)

Section Strides.
Context {A : Type}.

Lemma stride_aux_lookup (step : nat) (l : list A) :
  1 <= step ->
  forall skip k, stride_aux step skip l !! k = l !! (skip + k * step).
Proof.
  intros Hstep. induction l as [|x l IH]; intros skip k; [done|].
  destruct skip as [|skip]; simpl.
  - destruct k as [|k]; [done|]. simpl. rewrite IH.
    replace (step + k * step) with (S (step - 1 + k * step)) by lia. done.
  - apply IH.
Qed.

Lemma slice_step_lookup (start step k : nat) (l : list A) :
  1 <= step -> slice_step start step l !! k = l !! (start + k * step).
Proof. intros Hstep. by apply stride_aux_lookup. Qed.

(** A vector of [step * n] entries has [n] entries at every offset below
    [step]. *)
Lemma length_slice_step (start step n : nat) (l : list A) :
  start < step -> length l = step * n ->
  length (slice_step start step l) = n.
Proof.
  intros Hstart Hlen.
  assert (Hin : forall k, k < length (slice_step start step l) <-> k < n).
  { intros k. rewrite <- lookup_lt_is_Some, slice_step_lookup by lia.
    rewrite lookup_lt_is_Some, Hlen. nia. }
  destruct (Hin n) as [H1 _]. destruct (Hin (length (slice_step start step l)))
    as [_ H2]. lia.
Qed.

End Strides.

Section FindRoot.
Context {F : Type} `{Scalar F}.

Lemma length_interleave4 (v m h n : list F) :
  length m = length v -> length h = length v -> length n = length v ->
  length (interleave4 v m h n) = 4 * length v.
Proof.
  revert m h n. induction v as [|a v IH]; intros [|b m] [|c h] [|d n];
    simpl; try done.
  intros Hm Hh Hn. rewrite IH by lia. lia.
Qed.

(** De-interleaving gives the columns back. *)
Lemma slice_step_interleave4 (v m h n : list F) :
  length m = length v -> length h = length v -> length n = length v ->
  slice_step 0 4 (interleave4 v m h n) = v
  /\ slice_step 1 4 (interleave4 v m h n) = m
  /\ slice_step 2 4 (interleave4 v m h n) = h
  /\ slice_step 3 4 (interleave4 v m h n) = n.
Proof.
  unfold slice_step. revert m h n.
  induction v as [|a v IH]; intros [|b m] [|c h] [|d n]; simpl; try done.
  intros Hm Hh Hn.
  destruct (IH m h n) as (E0 & E1 & E2 & E3); [lia..|].
  simpl in *. by rewrite E0, E1, E2, E3.
Qed.

Lemma ravel_column_stack_voltages (v m h n u : list F) :
  ravel_column_stack v m h n = Some u -> slice_step 0 4 u = v.
Proof.
  unfold ravel_column_stack. destruct (decide _) as [(Hm & Hh & Hn)|]; [|done].
  intros [= <-]. by apply slice_step_interleave4.
Qed.

(** The conductance vectors of a state of [n] compartments, entry by
    entry. *)
Lemma find_root_conds_entries (params u : list F) (n : nat) :
  length u = 4 * n -> length params = 3 * n ->
  exists na_conds kd_conds leak_conds,
    find_root_conds params (slice_step 1 4 u) (slice_step 2 4 u)
      (slice_step 3 4 u) = Some (na_conds, kd_conds, leak_conds)
    /\ length na_conds = n /\ length kd_conds = n /\ length leak_conds = n
    /\ forall k g_na g_kd g_leak m h nv,
         params !! (3 * k) = Some g_na ->
         params !! (3 * k + 1) = Some g_kd ->
         params !! (3 * k + 2) = Some g_leak ->
         u !! (4 * k + 1) = Some m ->
         u !! (4 * k + 2) = Some h ->
         u !! (4 * k + 3) = Some nv ->
         na_conds !! k = Some (fmul (fmul g_na (fpow m 3)) h)
         /\ kd_conds !! k = Some (fmul g_kd (fpow nv 4))
         /\ leak_conds !! k = Some g_leak.
Proof.
  intros Hu Hp. unfold find_root_conds.
  assert (Lp0 : length (slice_step 0 3 params) = n)
    by (by apply length_slice_step; [lia|]).
  assert (Lp1 : length (slice_step 1 3 params) = n)
    by (by apply length_slice_step; [lia|]).
  assert (Lp2 : length (slice_step 2 3 params) = n)
    by (by apply length_slice_step; [lia|]).
  assert (Lm : length (slice_step 1 4 u) = n)
    by (by apply length_slice_step; [lia|]).
  assert (Lh : length (slice_step 2 4 u) = n)
    by (by apply length_slice_step; [lia|]).
  assert (Ln : length (slice_step 3 4 u) = n)
    by (by apply length_slice_step; [lia|]).
  repeat (rewrite ewise2_bind by (list_lengths; lia); cbv beta).
  eexists _, _, _. split; [reflexivity|].
  change (map ?f ?l) with (f <$> l).
  split; [list_lengths; lia|]. split; [list_lengths; lia|].
  split; [done|].
  intros k g_na g_kd g_leak m h nv Ena Ekd Eleak Em Eh En.
  rewrite !lookup_zip_with, !list_lookup_fmap, !slice_step_lookup by lia.
  replace (0 + k * 3) with (3 * k) by lia.
  replace (1 + k * 3) with (3 * k + 1) by lia.
  replace (2 + k * 3) with (3 * k + 2) by lia.
  replace (1 + k * 4) with (4 * k + 1) by lia.
  replace (2 + k * 4) with (4 * k + 2) by lia.
  replace (3 + k * 4) with (4 * k + 3) by lia.
  rewrite Ena, Ekd, Eleak, Em, Eh, En. done.
Qed.

End FindRoot.

(** Opening the successive binds of a successful computation. *)
Ltac bind_inv Hrun :=
  repeat match type of Hrun with
  | mbind _ ?x = Some _ =>
      let E := fresh "E" in
      destruct x eqn:E;
      [cbn [mbind option_bind] in Hrun | discriminate Hrun]
  | match ?p with pair _ _ => _ end = Some _ => destruct p
  end.

(** A successful per-step update: the new voltages are what the solver
    returns for the system assembled from the conductances of the
    incoming state. *)
Lemma find_root_Some {F : Type} `{Scalar F} (imports : Imports F)
    (g : Globals) (t : F) (u params : list F)
    (i_delay i_amp i_dur dt radius len : F) (nn : list F) (cc : F)
    (levels : list (list Z)) (parents : list Z) (u' : list F) :
  find_root imports g t u params i_delay i_amp i_dur dt radius len nn cc
    levels parents = Some u' ->
  exists na_conds kd_conds leak_conds lowers diags uppers rhss xs,
    find_root_conds params (slice_step 1 4 u) (slice_step 2 4 u)
      (slice_step 3 4 u) = Some (na_conds, kd_conds, leak_conds)
    /\ define_all_tridiags (slice_step 0 4 u) na_conds kd_conds leak_conds
         (stimulus_get_external_input (slice_step 0 4 u) t i_delay i_dur
            i_amp radius len (NSEG_PER_BRANCH g))
         nn (NSEG_PER_BRANCH g) (NUM_BRANCHES g) dt cc
       = Some (lowers, diags, uppers, rhss)
    /\ solve_branched imports levels parents lowers diags uppers rhss
         (fmul (fneg dt) cc) = Some xs
    /\ slice_step 0 4 u' = concat xs.
Proof.
  intros Hrun. unfold find_root in Hrun. bind_inv Hrun.
  apply ravel_column_stack_voltages in Hrun.
  eexists _, _, _, _, _, _, _, _. eauto.
Qed.

(** C7. In one per-step update of a state of [n] compartments, the three
    conductance vectors passed to the assembly are computed from the
    gating values of the incoming state [u]: for compartment [k],
    sodium is [params[3k] * m ** 3 * h], potassium [params[3k+1] * n ** 4]
    and leak [params[3k+2]], with [m], [h], [n] the entries [4k+1],
    [4k+2], [4k+3] of [u]. When the globals hold the two sizes of the
    state, the system assembled from these vectors exists, and whenever
    the three gating updates and the solver return vectors of [n] entries
    the update returns: its result interleaves the solver's answer for
    this system with the new gating values. Conversely the voltages of
    any result are the solver's answer for this system, so they do not
    depend on the gating update at all. *)
Theorem find_root_conductances_from_pre_step_gates
    {F : Type} `{Scalar F} (g : Globals) (t : F) (u params : list F)
    (i_delay i_amp i_dur dt radius len : F) (nn : list F) (cc : F)
    (levels : list (list Z)) (parents : list Z) (n : nat) :
  length u = 4 * n -> length params = 3 * n ->
  exists na_conds kd_conds leak_conds,
    find_root_conds params (slice_step 1 4 u) (slice_step 2 4 u)
      (slice_step 3 4 u) = Some (na_conds, kd_conds, leak_conds)
    /\ (forall k g_na g_kd g_leak m h nv,
          params !! (3 * k) = Some g_na ->
          params !! (3 * k + 1) = Some g_kd ->
          params !! (3 * k + 2) = Some g_leak ->
          u !! (4 * k + 1) = Some m ->
          u !! (4 * k + 2) = Some h ->
          u !! (4 * k + 3) = Some nv ->
          na_conds !! k = Some (fmul (fmul g_na (fpow m 3)) h)
          /\ kd_conds !! k = Some (fmul g_kd (fpow nv 4))
          /\ leak_conds !! k = Some g_leak)
    /\ (forall imports new_m new_h new_n nb nseg,
          NUM_BRANCHES g = Z.of_nat nb ->
          NSEG_PER_BRANCH g = Z.of_nat nseg ->
          n = nb * nseg -> length nn = n ->
          m_gate imports (slice_step 0 4 u)
            ≫= (fun r => solve_gate_implicit imports (slice_step 1 4 u) dt
                           r.1 r.2) = Some new_m ->
          h_gate imports (slice_step 0 4 u)
            ≫= (fun r => solve_gate_implicit imports (slice_step 2 4 u) dt
                           r.1 r.2) = Some new_h ->
          n_gate imports (slice_step 0 4 u)
            ≫= (fun r => solve_gate_implicit imports (slice_step 3 4 u) dt
                           r.1 r.2) = Some new_n ->
          length new_m = n -> length new_h = n -> length new_n = n ->
          exists lowers diags uppers rhss,
            define_all_tridiags (slice_step 0 4 u) na_conds kd_conds
              leak_conds
              (stimulus_get_external_input (slice_step 0 4 u) t i_delay
                 i_dur i_amp radius len (NSEG_PER_BRANCH g))
              nn (NSEG_PER_BRANCH g) (NUM_BRANCHES g) dt cc
            = Some (lowers, diags, uppers, rhss)
            /\ forall xs,
                 solve_branched imports levels parents lowers diags uppers
                   rhss (fmul (fneg dt) cc) = Some xs ->
                 length (concat xs) = n ->
                 find_root imports g t u params i_delay i_amp i_dur dt
                   radius len nn cc levels parents
                 = Some (interleave4 (concat xs) new_m new_h new_n))
    /\ (forall imports u',
          find_root imports g t u params i_delay i_amp i_dur dt radius len
            nn cc levels parents = Some u' ->
          exists lowers diags uppers rhss xs,
            define_all_tridiags (slice_step 0 4 u) na_conds kd_conds
              leak_conds
              (stimulus_get_external_input (slice_step 0 4 u) t i_delay
                 i_dur i_amp radius len (NSEG_PER_BRANCH g))
              nn (NSEG_PER_BRANCH g) (NUM_BRANCHES g) dt cc
            = Some (lowers, diags, uppers, rhss)
            /\ solve_branched imports levels parents lowers diags uppers
                 rhss (fmul (fneg dt) cc) = Some xs
            /\ slice_step 0 4 u' = concat xs)
    /\ (forall imports1 imports2 u1 u2,
          solve_branched imports1 = solve_branched imports2 ->
          find_root imports1 g t u params i_delay i_amp i_dur dt radius len
            nn cc levels parents = Some u1 ->
          find_root imports2 g t u params i_delay i_amp i_dur dt radius len
            nn cc levels parents = Some u2 ->
          slice_step 0 4 u1 = slice_step 0 4 u2).
Proof.
  intros Hu Hp.
  destruct (find_root_conds_entries params u n Hu Hp)
    as (na & kd & leak & Hconds & Lna & Lkd & Lleak & Hent).
  exists na, kd, leak. split; [exact Hconds|]. split; [exact Hent|].
  assert (Hsys : forall imports u',
    find_root imports g t u params i_delay i_amp i_dur dt radius len
      nn cc levels parents = Some u' ->
    exists lowers diags uppers rhss xs,
      define_all_tridiags (slice_step 0 4 u) na kd leak
        (stimulus_get_external_input (slice_step 0 4 u) t i_delay
           i_dur i_amp radius len (NSEG_PER_BRANCH g))
        nn (NSEG_PER_BRANCH g) (NUM_BRANCHES g) dt cc
      = Some (lowers, diags, uppers, rhss)
      /\ solve_branched imports levels parents lowers diags uppers
           rhss (fmul (fneg dt) cc) = Some xs
      /\ slice_step 0 4 u' = concat xs).
  { intros imports u' Hrun.
    destruct (find_root_Some _ _ _ _ _ _ _ _ _ _ _ _ _ _ _ _ Hrun)
      as (na' & kd' & leak' & lowers & diags & uppers & rhss & xs
          & Hconds' & Hsys & Hsol & Hv).
    rewrite Hconds in Hconds'. injection Hconds' as <- <- <-.
    by exists lowers, diags, uppers, rhss, xs. }
  split; [|split; [exact Hsys|]].
  - intros imports new_m new_h new_n nb nseg Hnb Hnseg Hn Hnn Hm Hh Hng
      Lm Lh Ln.
    rewrite Hnb, Hnseg.
    set (voltages := slice_step 0 4 u) in *.
    set (i_ext := stimulus_get_external_input voltages t i_delay i_dur
                    i_amp radius len (Z.of_nat nseg)).
    assert (Hv : length voltages = nb * nseg)
      by (apply length_slice_step; [lia|by rewrite <- Hn]).
    assert (Lie : length i_ext = nb * nseg).
    { unfold i_ext, stimulus_get_external_input.
      by rewrite length_get_external_input. }
    destruct (define_all_tridiags_generic voltages na kd leak i_ext nn
                nseg nb dt cc) as (diags & rhss & Hasm & _); try lia.
    eexists _, diags, _, rhss. split; [exact Hasm|].
    intros xs Hsol Lx.
    unfold find_root. fold voltages.
    apply bind_Some in Hm as (rm & Em & Sm).
    apply bind_Some in Hh as (rh & Eh & Sh).
    apply bind_Some in Hng as (rn & En & Sn).
    rewrite Em. cbn [mbind option_bind]. rewrite Sm. cbn [mbind option_bind].
    rewrite Eh. cbn [mbind option_bind]. rewrite Sh. cbn [mbind option_bind].
    rewrite En. cbn [mbind option_bind]. rewrite Sn. cbn [mbind option_bind].
    rewrite Hconds. cbn [mbind option_bind].
    rewrite Hnb, Hnseg. fold i_ext. rewrite Hasm. cbn [mbind option_bind].
    rewrite Hsol. cbn [mbind option_bind].
    unfold ravel_column_stack. rewrite decide_True by lia. done.
  - intros imports1 imports2 u1 u2 Hsame Hrun1 Hrun2.
    destruct (Hsys _ _ Hrun1) as (l1 & d1 & up1 & r1 & xs1 & S1 & X1 & ->).
    destruct (Hsys _ _ Hrun2) as (l2 & d2 & up2 & r2 & xs2 & S2 & X2 & ->).
    rewrite S1 in S2. injection S2 as <- <- <- <-.
    rewrite Hsame, X2 in X1. by injection X1 as ->.
Qed.

(** The theorem at the example state, with the globals at one branch of
    two compartments: the leak conductance of compartment 1 is the
    parameter itself, and the update returns, interleaving the solver's
    two voltages with the new gating values. *)
Lemma find_root_conductances_from_pre_step_gates_witness :
  (exists na_conds kd_conds leak_conds,
     find_root_conds example_params (slice_step 1 4 example_u)
       (slice_step 2 4 example_u) (slice_step 3 4 example_u)
     = Some (na_conds, kd_conds, leak_conds)
     /\ leak_conds !! 1 = Some 0.125%float)
  /\ exists xs new_m new_h new_n,
       find_root uncoupled_imports
         {| NUM_BRANCHES := 1; NSEG_PER_BRANCH := 2 |} 0%float example_u
         example_params 5%float 1%float 2%float example_dt 1%float
         10%float [1%float; 1%float] 0%float [[0%Z]] [(-1)%Z]
       = Some (interleave4 (concat xs) new_m new_h new_n)
       /\ length (concat xs) = 2 /\ length new_m = 2
       /\ length new_h = 2 /\ length new_n = 2.
Proof.
  destruct (find_root_conductances_from_pre_step_gates
              {| NUM_BRANCHES := 1; NSEG_PER_BRANCH := 2 |} 0%float
              example_u example_params
              5%float 1%float 2%float example_dt 1%float 10%float
              [1%float; 1%float] 0%float [[0%Z]] [(-1)%Z] 2
              eq_refl eq_refl)
    as (na & kd & leak & Hconds & Hent & Hrun & _).
  split.
  { exists na, kd, leak. split; [exact Hconds|].
    apply (Hent 1 0.5%float 0.25%float 0.125%float 0.25%float 0.75%float
             0.5%float); reflexivity. }
  destruct (m_gate uncoupled_imports (slice_step 0 4 example_u)
              ≫= (fun r => solve_gate_implicit uncoupled_imports
                             (slice_step 1 4 example_u) example_dt r.1 r.2))
    as [new_m|] eqn:Hm; [|vm_compute in Hm; discriminate Hm].
  destruct (h_gate uncoupled_imports (slice_step 0 4 example_u)
              ≫= (fun r => solve_gate_implicit uncoupled_imports
                             (slice_step 2 4 example_u) example_dt r.1 r.2))
    as [new_h|] eqn:Hh; [|vm_compute in Hh; discriminate Hh].
  destruct (n_gate uncoupled_imports (slice_step 0 4 example_u)
              ≫= (fun r => solve_gate_implicit uncoupled_imports
                             (slice_step 3 4 example_u) example_dt r.1 r.2))
    as [new_n|] eqn:Hn; [|vm_compute in Hn; discriminate Hn].
  assert (Lm : length new_m = 2).
  { pose proof Hm as Hm'. vm_compute in Hm'. injection Hm' as <-.
    reflexivity. }
  assert (Lh : length new_h = 2).
  { pose proof Hh as Hh'. vm_compute in Hh'. injection Hh' as <-.
    reflexivity. }
  assert (Ln : length new_n = 2).
  { pose proof Hn as Hn'. vm_compute in Hn'. injection Hn' as <-.
    reflexivity. }
  destruct (Hrun uncoupled_imports new_m new_h new_n 1 2
              eq_refl eq_refl eq_refl eq_refl Hm Hh Hn Lm Lh Ln)
    as (lowers & diags & uppers & rhss & Hasm & Hstep).
  pose proof Hconds as Hconds'. vm_compute in Hconds'.
  injection Hconds' as <- <- <-.
  pose proof Hasm as Hasm'. vm_compute in Hasm'.
  injection Hasm' as <- <- <- <-.
  match type of Hstep with
  | forall xs, ?call = Some xs -> _ =>
      destruct call as [xs|] eqn:Hsol;
        [|vm_compute in Hsol; discriminate Hsol]
  end.
  assert (Lx : length (concat xs) = 2).
  { pose proof Hsol as Hsol'. vm_compute in Hsol'. injection Hsol' as <-.
    reflexivity. }
  exists xs, new_m, new_h, new_n.
  split; [exact (Hstep xs eq_refl Lx)|].
  split; [exact Lx|]. split; [exact Lm|]. split; [exact Lh|exact Ln].
Defined.

(** The conductances of the example state, in binary64. *)
Example find_root_conds_example :
  find_root_conds example_params (slice_step 1 4 example_u)
    (slice_step 2 4 example_u) (slice_step 3 4 example_u)
  = Some ([0.03125; 0.005859375], [0.015625; 0.015625], [0.125; 0.125])%float.
Proof. vm_compute. reflexivity. Qed.

(** ** A step without conductances, current or coupling *)

Lemma all_zero_nth (l : list R) (k : nat) : all_zero l -> nth k l 0%R = 0%R.
Proof.
  intros Hl. rewrite nth_lookup. destruct (l !! k) as [x|] eqn:E; [|done].
  simpl. unfold all_zero in Hl. rewrite Forall_lookup in Hl.
  by apply (Hl k x).
Qed.

Lemma nth_replicate_default {A : Type} (m k : nat) (c : A) :
  nth k (replicate m c) c = c.
Proof.
  rewrite nth_lookup. destruct (replicate m c !! k) as [x|] eqn:E; [|done].
  apply lookup_replicate_1 in E. simpl. tauto.
Qed.

Lemma nth_replicate_lt {A : Type} (m k : nat) (c d : A) :
  k < m -> nth k (replicate m c) d = c.
Proof. intros Hk. by rewrite nth_lookup, lookup_replicate_2. Qed.

(** The blocks of a vector of [nb * nseg] entries, concatenated, give the
    vector back. *)
Lemma concat_branch_blocks (v : list R) (nb nseg : nat) :
  length v = nb * nseg ->
  concat ((fun b => take nseg (drop (b * nseg) v)) <$> seq 0 nb) = v.
Proof.
  intros Hv.
  rewrite (concat_blocks _ nseg (fun k => nth k v 0%R)).
  - rewrite length_fmap, length_seq. apply list_eq. intros k.
    rewrite list_lookup_fmap. destruct (decide (k < nb * nseg)) as [Hk|Hk].
    + rewrite lookup_seq_lt by done. simpl.
      symmetry. apply lookup_nth_R. lia.
    + rewrite lookup_seq_ge by lia. symmetry. apply lookup_ge_None. lia.
  - intros b row Hrow. rewrite list_lookup_fmap in Hrow.
    destruct (seq 0 nb !! b) as [b'|] eqn:E; [|done].
    apply lookup_seq in E as [-> Hb]. simpl in Hrow. injection Hrow as <-.
    split; [by apply block_length with nb|].
    intros i Hi. rewrite block_lookup by done. apply lookup_nth_R. nia.
Qed.

(** With all conductances, the injected current and the coupling at zero,
    the assembled system is the identity system on the blocks of the
    voltages. *)
Lemma define_all_tridiags_identity
    (voltages na_conds kd_conds leak_conds i_ext num_neighbours : list R)
    (nseg nb : nat) (dt : R) :
  length voltages = nb * nseg -> length na_conds = nb * nseg ->
  length kd_conds = nb * nseg -> length leak_conds = nb * nseg ->
  length i_ext = nb * nseg -> length num_neighbours = nb * nseg ->
  all_zero na_conds -> all_zero kd_conds -> all_zero leak_conds ->
  all_zero i_ext ->
  define_all_tridiags voltages na_conds kd_conds leak_conds i_ext
    num_neighbours (Z.of_nat nseg) (Z.of_nat nb) dt 0%R
  = Some (replicate nb (replicate (nseg - 1) 0%R),
          replicate nb (replicate nseg 1%R),
          replicate nb (replicate (nseg - 1) 0%R),
          (fun b => take nseg (drop (b * nseg) voltages)) <$> seq 0 nb).
Proof.
  intros Hv Hna Hkd Hleak Hie Hnn Zna Zkd Zleak Zie.
  destruct (define_all_tridiags_R voltages na_conds kd_conds leak_conds
              i_ext num_neighbours nseg nb dt 0%R)
    as (diags & solves & Hres & Hd & Hs & Hent); try done.
  rewrite Hres. replace (- dt * 0)%R with 0%R by ring.
  assert (Hdiags : diags = replicate nb (replicate nseg 1%R)).
  { symmetry. apply replicate_as_Forall. split; [done|].
    apply Forall_lookup. intros b diag Hdiag.
    destruct (Hent b) as (diag' & rhs & Ed & _ & Ld & _ & Ha & _).
    { rewrite <- Hd. by eapply lookup_lt_Some. }
    rewrite Hdiag in Ed. injection Ed as <-.
    apply replicate_as_Forall. split; [done|].
    apply Forall_lookup. intros i x Hx.
    rewrite Ha in Hx by (rewrite <- Ld; by eapply lookup_lt_Some).
    injection Hx as <-. unfold expected_diag.
    rewrite (all_zero_nth na_conds), (all_zero_nth kd_conds),
      (all_zero_nth leak_conds) by done. ring. }
  assert (Hsolves :
    solves = (fun b => take nseg (drop (b * nseg) voltages)) <$> seq 0 nb).
  { apply list_eq. intros b. rewrite list_lookup_fmap.
    destruct (decide (b < nb)) as [Hb|Hb].
    - rewrite lookup_seq_lt by done. simpl.
      destruct (Hent b Hb) as (diag & rhs & _ & Er & _ & Lr & _ & Hr).
      rewrite Er. f_equal. apply list_eq. intros i.
      destruct (decide (i < nseg)) as [Hi|Hi].
      + rewrite Hr, block_lookup by done. unfold expected_rhs.
        rewrite (all_zero_nth na_conds), (all_zero_nth kd_conds),
          (all_zero_nth leak_conds), (all_zero_nth i_ext) by done.
        rewrite (lookup_nth_R voltages) by nia. f_equal. ring.
      + rewrite !(proj2 (lookup_ge_None _ _)); [done| |lia].
        rewrite (block_length _ nb) by done. lia.
    - rewrite lookup_seq_ge by lia. simpl. apply lookup_ge_None. lia. }
  by rewrite Hdiags, Hsolves.
Qed.

(** An exact solution of the identity system is its right-hand side. *)
Lemma solves_tridiag_identity (n : nat) (rhs x : list R) :
  length rhs = n ->
  solves_tridiag (replicate (n - 1) 0%R) (replicate n 1%R)
    (replicate (n - 1) 0%R) rhs x ->
  x = rhs.
Proof.
  intros Hrhs [Hlen Hrows]. rewrite length_replicate in Hlen, Hrows.
  apply nth_ext with 0%R 0%R; [lia|]. intros i Hi.
  rewrite <- Hrows by lia. unfold tridiag_row. real_scalars.
  rewrite (nth_replicate_lt n i) by lia.
  assert (Hbelow : match i with
                   | O => 0%R
                   | S j => (nth j (replicate (n - 1) 0) 0 * nth j x 0)%R
                   end = 0%R).
  { destruct i; [done|]. rewrite nth_replicate_default. ring. }
  rewrite Hbelow. rewrite nth_replicate_default.
  destruct (decide _); ring.
Qed.

(** C8. With zero sodium, potassium and leak conductances, zero injected
    current and zero coupling conductance, the assembled system of every
    branch is the identity: unit diagonal, zero off-diagonals, and the
    voltages of the branch as right-hand side. If the gating update
    returns one value per compartment and the solver returns an exact
    solution of every branch's system, one step succeeds and leaves the
    voltage of every compartment unchanged, for any [dt]. *)
Theorem zero_conductance_step_keeps_voltages
    (imports : Imports R) (g : Globals) (t : R) (u params : list R)
    (i_delay i_amp i_dur dt radius len : R) (nn : list R)
    (levels : list (list Z)) (parents : list Z) (nb nseg : nat)
    (na_conds kd_conds leak_conds : list R) :
  NUM_BRANCHES g = Z.of_nat nb -> NSEG_PER_BRANCH g = Z.of_nat nseg ->
  length u = 4 * (nb * nseg) -> length params = 3 * (nb * nseg) ->
  length nn = nb * nseg ->
  find_root_conds params (slice_step 1 4 u) (slice_step 2 4 u)
    (slice_step 3 4 u) = Some (na_conds, kd_conds, leak_conds) ->
  all_zero na_conds -> all_zero kd_conds -> all_zero leak_conds ->
  all_zero (stimulus_get_external_input (slice_step 0 4 u) t i_delay i_dur
              i_amp radius len (Z.of_nat nseg)) ->
  define_all_tridiags (slice_step 0 4 u) na_conds kd_conds leak_conds
    (stimulus_get_external_input (slice_step 0 4 u) t i_delay i_dur i_amp
       radius len (Z.of_nat nseg))
    nn (Z.of_nat nseg) (Z.of_nat nb) dt 0%R
  = Some (replicate nb (replicate (nseg - 1) 0%R),
          replicate nb (replicate nseg 1%R),
          replicate nb (replicate (nseg - 1) 0%R),
          (fun b => take nseg (drop (b * nseg) (slice_step 0 4 u)))
            <$> seq 0 nb)
  /\ forall new_m new_h new_n xs,
       m_gate imports (slice_step 0 4 u)
         ≫= (fun r => solve_gate_implicit imports (slice_step 1 4 u) dt
                        r.1 r.2) = Some new_m ->
       h_gate imports (slice_step 0 4 u)
         ≫= (fun r => solve_gate_implicit imports (slice_step 2 4 u) dt
                        r.1 r.2) = Some new_h ->
       n_gate imports (slice_step 0 4 u)
         ≫= (fun r => solve_gate_implicit imports (slice_step 3 4 u) dt
                        r.1 r.2) = Some new_n ->
       length new_m = nb * nseg -> length new_h = nb * nseg ->
       length new_n = nb * nseg ->
       solve_branched imports levels parents
         (replicate nb (replicate (nseg - 1) 0%R))
         (replicate nb (replicate nseg 1%R))
         (replicate nb (replicate (nseg - 1) 0%R))
         ((fun b => take nseg (drop (b * nseg) (slice_step 0 4 u)))
            <$> seq 0 nb)
         (- dt * 0)%R = Some xs ->
       solve_branched_exact
         (replicate nb (replicate (nseg - 1) 0%R))
         (replicate nb (replicate nseg 1%R))
         (replicate nb (replicate (nseg - 1) 0%R))
         ((fun b => take nseg (drop (b * nseg) (slice_step 0 4 u)))
            <$> seq 0 nb)
         xs ->
       exists u',
         find_root imports g t u params i_delay i_amp i_dur dt radius len
           nn 0%R levels parents = Some u'
         /\ slice_step 0 4 u' = slice_step 0 4 u.
Proof.
  intros Hnb Hnseg Hu Hp Hnn Hconds Zna Zkd Zleak Zie.
  set (voltages := slice_step 0 4 u) in *.
  set (i_ext := stimulus_get_external_input voltages t i_delay i_dur i_amp
                  radius len (Z.of_nat nseg)) in *.
  assert (Hv : length voltages = nb * nseg)
    by (apply length_slice_step; [lia|done]).
  destruct (find_root_conds_entries params u (nb * nseg) Hu Hp)
    as (na & kd & leak & Hconds' & Lna & Lkd & Lleak & _).
  rewrite Hconds in Hconds'. injection Hconds' as <- <- <-.
  assert (Lie : length i_ext = nb * nseg).
  { unfold i_ext, stimulus_get_external_input.
    by rewrite length_get_external_input. }
  assert (Hsys := define_all_tridiags_identity voltages na_conds kd_conds
            leak_conds i_ext nn nseg nb dt Hv Lna Lkd Lleak Lie Hnn
            Zna Zkd Zleak Zie).
  split; [exact Hsys|].
  intros new_m new_h new_n xs Hm Hh Hn Lm Lh Ln Hsol [Hxs Hexact].
  (* an exact solution of the identity system is the blocks themselves *)
  assert (Hblocks :
    xs = (fun b => take nseg (drop (b * nseg) voltages)) <$> seq 0 nb).
  { rewrite length_replicate in Hxs.
    apply list_eq. intros b. rewrite list_lookup_fmap.
    destruct (decide (b < nb)) as [Hb|Hb].
    - rewrite lookup_seq_lt by done. simpl.
      destruct (lookup_lt_is_Some_2 xs b) as [x Hx]; [lia|].
      rewrite Hx. f_equal.
      apply (solves_tridiag_identity nseg).
      { by apply block_length with nb. }
      apply (Hexact b); try (by apply lookup_replicate_2); [|exact Hx].
      by rewrite list_lookup_fmap, lookup_seq_lt.
    - rewrite lookup_seq_ge by lia. simpl. apply lookup_ge_None. lia. }
  assert (Hnew_v : concat xs = voltages).
  { rewrite Hblocks. by apply concat_branch_blocks. }
  exists (interleave4 voltages new_m new_h new_n).
  split; [|apply slice_step_interleave4; lia].
  unfold find_root. fold voltages.
  apply bind_Some in Hm as (rm & Em & Sm).
  apply bind_Some in Hh as (rh & Eh & Sh).
  apply bind_Some in Hn as (rn & En & Sn).
  rewrite Em. cbn [mbind option_bind]. rewrite Sm. cbn [mbind option_bind].
  rewrite Eh. cbn [mbind option_bind]. rewrite Sh. cbn [mbind option_bind].
  rewrite En. cbn [mbind option_bind]. rewrite Sn. cbn [mbind option_bind].
  rewrite Hconds. cbn [mbind option_bind].
  rewrite Hnb, Hnseg. fold i_ext. rewrite Hsys. cbn [mbind option_bind].
  real_scalars. rewrite Hsol. cbn [mbind option_bind]. rewrite Hnew_v.
  unfold ravel_column_stack. rewrite decide_True by lia. done.
Qed.

(** The theorem at a one-branch cell of two compartments with zero
    parameters, before the stimulus, with the uncoupled solver. *)
Lemma zero_conductance_step_keeps_voltages_witness :
  exists u',
    find_root uncoupled_imports
      {| NUM_BRANCHES := 1; NSEG_PER_BRANCH := 2 |} 0%R
      [-65; 1 / 2; 1 / 2; 1 / 2; -60; 1 / 4; 3 / 4; 1 / 2]%R
      [0; 0; 0; 0; 0; 0]%R 5%R 1%R 2%R (1 / 2)%R 1%R 10%R [1; 1]%R 0%R
      [[0%Z]] [(-1)%Z] = Some u'
    /\ slice_step 0 4 u' = [-65; -60]%R.
Proof.
  edestruct (zero_conductance_step_keeps_voltages uncoupled_imports
               {| NUM_BRANCHES := 1; NSEG_PER_BRANCH := 2 |} 0%R
               [-65; 1 / 2; 1 / 2; 1 / 2; -60; 1 / 4; 3 / 4; 1 / 2]%R
               [0; 0; 0; 0; 0; 0]%R 5%R 1%R 2%R (1 / 2)%R 1%R 10%R
               [1; 1]%R [[0%Z]] [(-1)%Z] 1 2) as [_ Hstep].
  - reflexivity.
  - reflexivity.
  - reflexivity.
  - reflexivity.
  - reflexivity.
  - reflexivity.
  - repeat constructor; real_scalars; ring.
  - repeat constructor; real_scalars; ring.
  - repeat constructor.
  - unfold stimulus_get_external_input.
    rewrite get_external_input_off by (apply stim_window_off_R; lra).
    apply all_zero_zeros_like.
  - edestruct Hstep as (u' & Hu' & Hv).
    + reflexivity.
    + reflexivity.
    + reflexivity.
    + reflexivity.
    + reflexivity.
    + reflexivity.
    + reflexivity.
    + split; [reflexivity|].
      intros [|b] lower diag upper rhs x Hl Hd Hu Hr Hx; [|discriminate Hl].
      injection Hl as <-. injection Hd as <-. injection Hu as <-.
      injection Hr as <-. injection Hx as <-.
      split; [reflexivity|].
      intros [|[|i]] Hi; [| |simpl in Hi; lia];
        unfold tridiag_row; simpl; field.
    + exists u'. split; [exact Hu' | exact Hv].
Defined.

(** * Further properties *)

(** ** The layout of the state vector *)

Section StateLayout.
Context {F : Type} `{Scalar F}.

Lemma interleave4_slices (n : nat) :
  forall u : list F,
    length u = 4 * n ->
    interleave4 (slice_step 0 4 u) (slice_step 1 4 u) (slice_step 2 4 u)
      (slice_step 3 4 u) = u.
Proof.
  unfold slice_step. induction n as [|n IH]; intros u Hu.
  - by destruct u.
  - destruct u as [|a [|b [|c [|d u]]]]; simpl in Hu; try lia.
    simpl. rewrite IH by lia. done.
Qed.

(** The four stride-4 slices of a vector have one length exactly when the
    length of the vector is a multiple of 4. *)
Lemma slices_same_length (u : list F) :
  length (slice_step 3 4 u) = length (slice_step 0 4 u) ->
  length u `mod` 4 = 0.
Proof.
  intros Hlen.
  pose proof (Nat.div_mod_eq (length u) 4) as Hdiv.
  pose proof (Nat.mod_upper_bound (length u) 4) as Hmod.
  set (q := length u / 4) in *. set (r := length u `mod` 4) in *.
  destruct (decide (r = 0)) as [|Hr]; [done|]. exfalso.
  assert (H0 : is_Some (slice_step 0 4 u !! q)).
  { rewrite slice_step_lookup by lia. apply lookup_lt_is_Some. lia. }
  assert (H3 : slice_step 3 4 u !! q = None).
  { rewrite slice_step_lookup by lia. apply lookup_ge_None. lia. }
  apply lookup_lt_is_Some in H0. apply lookup_ge_None in H3. lia.
Qed.

(** X1. Unpacking a state vector into voltages and gates and packing the
    four vectors again is the identity when the length is a multiple of
    4, and is refused otherwise. *)
Theorem ravel_column_stack_slices (u : list F) :
  (length u `mod` 4 = 0 ->
     ravel_column_stack (slice_step 0 4 u) (slice_step 1 4 u)
       (slice_step 2 4 u) (slice_step 3 4 u) = Some u)
  /\ (length u `mod` 4 <> 0 ->
        ravel_column_stack (slice_step 0 4 u) (slice_step 1 4 u)
          (slice_step 2 4 u) (slice_step 3 4 u) = None).
Proof.
  split.
  - intros Hmod.
    assert (Hu : length u = 4 * (length u / 4)).
    { pose proof (Nat.div_mod_eq (length u) 4). lia. }
    unfold ravel_column_stack.
    rewrite !(length_slice_step _ 4 (length u / 4)) by (lia || done).
    rewrite decide_True by done. f_equal.
    by apply interleave4_slices with (length u / 4).
  - intros Hmod. unfold ravel_column_stack.
    destruct (decide _) as [(_ & _ & Hn)|]; [|done].
    by apply slices_same_length in Hn.
Qed.

End StateLayout.

(** The theorem at the example state, and at a vector of five entries. *)
Lemma ravel_column_stack_slices_witness :
  ravel_column_stack (slice_step 0 4 example_u) (slice_step 1 4 example_u)
    (slice_step 2 4 example_u) (slice_step 3 4 example_u) = Some example_u
  /\ ravel_column_stack (slice_step 0 4 [1; 2; 3; 4; 5]%float)
       (slice_step 1 4 [1; 2; 3; 4; 5]%float)
       (slice_step 2 4 [1; 2; 3; 4; 5]%float)
       (slice_step 3 4 [1; 2; 3; 4; 5]%float) = None.
Proof.
  split.
  - apply (ravel_column_stack_slices example_u). reflexivity.
  - apply (ravel_column_stack_slices [1; 2; 3; 4; 5]%float). discriminate.
Defined.

(** X2. Whenever [find_root] returns, the gating entries of the new state
    are what the gating update returned for the gating entries of the old
    state and the old voltages: they depend neither on the parameters nor
    on the stimulus nor on the solver's answer. The new state has four
    entries per gating value. *)
Theorem find_root_gating_columns {F : Type} `{Scalar F}
    (imports : Imports F) (g : Globals) (t : F) (u params : list F)
    (i_delay i_amp i_dur dt radius len : F) (nn : list F) (cc : F)
    (levels : list (list Z)) (parents : list Z) (u' : list F) :
  find_root imports g t u params i_delay i_amp i_dur dt radius len nn cc
    levels parents = Some u' ->
  m_gate imports (slice_step 0 4 u)
    ≫= (fun r => solve_gate_implicit imports (slice_step 1 4 u) dt r.1 r.2)
  = Some (slice_step 1 4 u')
  /\ h_gate imports (slice_step 0 4 u)
       ≫= (fun r => solve_gate_implicit imports (slice_step 2 4 u) dt
                      r.1 r.2)
     = Some (slice_step 2 4 u')
  /\ n_gate imports (slice_step 0 4 u)
       ≫= (fun r => solve_gate_implicit imports (slice_step 3 4 u) dt
                      r.1 r.2)
     = Some (slice_step 3 4 u')
  /\ length u' = 4 * length (slice_step 1 4 u').
Proof.
  intros Hrun. unfold find_root in Hrun. bind_inv Hrun.
  unfold ravel_column_stack in Hrun.
  destruct (decide _) as [(Hm & Hh & Hn)|]; [|done].
  injection Hrun as <-.
  destruct (slice_step_interleave4 _ _ _ _ Hm Hh Hn) as (_ & -> & -> & ->).
  rewrite length_interleave4 by done.
  cbn [mbind option_bind].
  repeat match goal with E : _ = Some _ |- _ => rewrite E; clear E end.
  cbn [mbind option_bind]. repeat split; try done. lia.
Qed.

(** The theorem at one step of the example run. *)
Lemma find_root_gating_columns_witness :
  exists u',
    find_root uncoupled_imports
      {| NUM_BRANCHES := 1; NSEG_PER_BRANCH := 2 |} 0%float example_u
      example_params 5%float 1%float 2%float example_dt 1%float 10%float
      [1%float; 1%float] 0%float [[0%Z]] [(-1)%Z] = Some u'
    /\ length u' = 4 * length (slice_step 1 4 u').
Proof.
  destruct (find_root uncoupled_imports
              {| NUM_BRANCHES := 1; NSEG_PER_BRANCH := 2 |} 0%float
              example_u example_params 5%float 1%float 2%float example_dt
              1%float 10%float [1%float; 1%float] 0%float [[0%Z]]
              [(-1)%Z]) as [u'|] eqn:Hrun;
    [|vm_compute in Hrun; discriminate Hrun].
  exists u'. split; [reflexivity|].
  apply (find_root_gating_columns _ _ _ _ _ _ _ _ _ _ _ _ _ _ _ _ Hrun).
Defined.

(** ** The shape of the assembled systems *)

Section TridiagShape.
Context {F : Type} `{Scalar F}.

Lemma define_tridiag_for_branch_off_diagonals
    (voltages na_conds kd_conds leak_conds i_ext : list F) (dt : F)
    (num_neighbours : list F) (coupling_conds : F) (nseg : Z)
    (lower a_v upper b_v : list F) :
  _define_tridiag_for_branch voltages na_conds kd_conds leak_conds i_ext dt
    num_neighbours coupling_conds nseg = Some (lower, a_v, upper, b_v) ->
  lower = replicate (Z.to_nat (nseg - 1)) (fmul (fneg dt) coupling_conds)
  /\ upper = replicate (Z.to_nat (nseg - 1)) (fmul (fneg dt) coupling_conds).
Proof.
  intros Hrun. unfold _define_tridiag_for_branch in Hrun. bind_inv Hrun.
  by injection Hrun as <- _ <- _.
Qed.

(** What the loop returns is what it was given, followed by the results
    of the calls for the branches. *)
Lemma tridiag_loop_Some
    (voltages na_conds kd_conds leak_conds i_ext num_neighbours : list F)
    (nseg : Z) (dt coupling_conds : F) (bs : list Z) :
  forall lowers diags uppers solves lowers' diags' uppers' solves',
    tridiag_loop voltages na_conds kd_conds leak_conds i_ext num_neighbours
      nseg dt coupling_conds bs lowers diags uppers solves
    = Some (lowers', diags', uppers', solves') ->
    exists rs : list (list F * list F * list F * list F),
      Forall2
        (fun b r =>
           _define_tridiag_for_branch
             (py_slice voltages (b * nseg) ((b + 1) * nseg))
             (py_slice na_conds (b * nseg) ((b + 1) * nseg))
             (py_slice kd_conds (b * nseg) ((b + 1) * nseg))
             (py_slice leak_conds (b * nseg) ((b + 1) * nseg))
             (py_slice i_ext (b * nseg) ((b + 1) * nseg)) dt
             (py_slice num_neighbours (b * nseg) ((b + 1) * nseg))
             coupling_conds nseg = Some r) bs rs
      /\ lowers' = lowers ++ ((fun r => r.1.1.1) <$> rs)
      /\ diags' = diags ++ ((fun r => r.1.1.2) <$> rs)
      /\ uppers' = uppers ++ ((fun r => r.1.2) <$> rs)
      /\ solves' = solves ++ ((fun r => r.2) <$> rs).
Proof.
  induction bs as [|b bs IH];
    intros lowers diags uppers solves lowers' diags' uppers' solves' Hrun.
  - injection Hrun as <- <- <- <-. exists []. rewrite !app_nil_r.
    repeat split. constructor.
  - cbn [tridiag_loop] in Hrun.
    destruct (_define_tridiag_for_branch _ _ _ _ _ _ _ _ _)
      as [[[[lower diag] upper] solve]|] eqn:Hcall; [|done].
    cbn [mbind option_bind] in Hrun.
    destruct (IH _ _ _ _ _ _ _ _ Hrun) as (rs & Hrs & -> & -> & -> & ->).
    exists ((lower, diag, upper, solve) :: rs).
    split; [by constructor|]. cbn [fmap list_fmap fst snd].
    by rewrite <- !app_assoc.
Qed.

Lemma asarray_rows_Some (rows rows' : list (list F)) :
  asarray_rows rows = Some rows' ->
  rows' = rows /\ exists n, Forall (fun r => length r = n) rows.
Proof.
  unfold asarray_rows. destruct rows as [|r rows].
  - intros [= <-]. split; [done|]. exists 0. constructor.
  - destruct (forallb _ _) eqn:Hall; [|done]. intros [= <-].
    split; [done|]. exists (length r).
    apply List.Forall_forall. intros r' Hr'.
    rewrite forallb_forall in Hall. by apply Nat.eqb_eq, Hall.
Qed.

(** X3. Whatever the lengths of the six input vectors, a result of
    [define_all_tridiags] has one row per branch in each of its four
    arrays, every off-diagonal row is [nseg_per_branch - 1] copies of
    [- dt * coupling_conds], and the rows of the diagonals have one
    length, as have the rows of the right-hand sides. *)
Theorem define_all_tridiags_shape
    (voltages na_conds kd_conds leak_conds i_ext num_neighbours : list F)
    (nseg nb : Z) (dt coupling_conds : F)
    (lowers diags uppers solves : list (list F)) :
  define_all_tridiags voltages na_conds kd_conds leak_conds i_ext
    num_neighbours nseg nb dt coupling_conds
  = Some (lowers, diags, uppers, solves) ->
  lowers = replicate (Z.to_nat nb)
             (replicate (Z.to_nat (nseg - 1))
                (fmul (fneg dt) coupling_conds))
  /\ uppers = lowers
  /\ length diags = Z.to_nat nb /\ length solves = Z.to_nat nb
  /\ (exists n, Forall (fun r => length r = n) diags)
  /\ (exists n, Forall (fun r => length r = n) solves).
Proof.
  intros Hrun. unfold define_all_tridiags in Hrun.
  destruct (tridiag_loop _ _ _ _ _ _ _ _ _ _ _ _ _ _)
    as [[[[ls ds] us] ss]|] eqn:Hloop; [|done].
  cbn [mbind option_bind] in Hrun. bind_inv Hrun.
  injection Hrun as <- <- <- <-.
  repeat match goal with
  | E : asarray_rows _ = Some _ |- _ =>
      apply asarray_rows_Some in E as [-> ?]
  end.
  destruct (tridiag_loop_Some _ _ _ _ _ _ _ _ _ _ _ _ _ _ _ _ _ _ Hloop)
    as (rs & Hrs & -> & -> & -> & ->).
  cbn [app] in *.
  assert (Hlen : length rs = Z.to_nat nb).
  { apply Forall2_length in Hrs. rewrite <- Hrs. unfold arange.
    by rewrite length_map, length_seq. }
  assert (Hoff : forall i r, rs !! i = Some r ->
            r.1.1.1 = replicate (Z.to_nat (nseg - 1))
                        (fmul (fneg dt) coupling_conds)
            /\ r.1.2 = replicate (Z.to_nat (nseg - 1))
                         (fmul (fneg dt) coupling_conds)).
  { intros i r Hr.
    destruct (Forall2_lookup_r _ _ _ _ _ Hrs Hr) as (b & _ & Hcall).
    destruct r as [[[lower a_v] upper] b_v].
    by apply define_tridiag_for_branch_off_diagonals in Hcall. }
  assert (Hlowers :
    (fun r : list F * list F * list F * list F => r.1.1.1) <$> rs
    = replicate (Z.to_nat nb)
        (replicate (Z.to_nat (nseg - 1)) (fmul (fneg dt) coupling_conds))).
  { symmetry. apply replicate_as_Forall. split; [by rewrite length_fmap|].
    apply Forall_fmap, Forall_lookup. intros i r Hr. simpl.
    by destruct (Hoff i r Hr) as [-> _]. }
  assert (Huppers :
    (fun r : list F * list F * list F * list F => r.1.2) <$> rs
    = replicate (Z.to_nat nb)
        (replicate (Z.to_nat (nseg - 1)) (fmul (fneg dt) coupling_conds))).
  { symmetry. apply replicate_as_Forall. split; [by rewrite length_fmap|].
    apply Forall_fmap, Forall_lookup. intros i r Hr. simpl.
    by destruct (Hoff i r Hr) as [_ ->]. }
  rewrite Hlowers, Huppers, !length_fmap. repeat split; done.
Qed.

End TridiagShape.

(** The theorem at a call whose voltages are one entry short. *)
Lemma define_all_tridiags_shape_witness :
  exists diags solves : list (list float),
    define_all_tridiags [1; 2; 3]%float [1; 2; 3; 4]%float
      [1; 2; 3; 4]%float [1; 2; 3; 4]%float [1; 2; 3; 4]%float
      [1; 2; 3; 4]%float 2 2 0.5%float 2%float
    = Some ([[-1]; [-1]]%float, diags, [[-1]; [-1]]%float, solves)
    /\ length diags = 2.
Proof.
  destruct (define_all_tridiags [1; 2; 3]%float [1; 2; 3; 4]%float
              [1; 2; 3; 4]%float [1; 2; 3; 4]%float [1; 2; 3; 4]%float
              [1; 2; 3; 4]%float 2 2 0.5%float 2%float)
    as [[[[lowers diags] uppers] solves]|] eqn:Hrun;
    [|vm_compute in Hrun; discriminate Hrun].
  destruct (define_all_tridiags_shape _ _ _ _ _ _ _ _ _ _ _ _ _ _ Hrun)
    as (Hl & Hu & Hd & _).
  exists diags, solves. split; [|exact Hd].
  rewrite Hu, Hl. vm_compute. reflexivity.
Defined.

(** ** What the assembly reads *)

Section TridiagReads.
Context {F : Type} `{Scalar F}.

Lemma py_slice_of_nat {A : Type} (l : list A) (s e : nat) :
  s <= e ->
  py_slice l (Z.of_nat s) (Z.of_nat e) = take (e - s) (drop s l).
Proof.
  intros Hse. unfold py_slice. rewrite !clamp_index_of_nat.
  destruct (decide (e <= length l)) as [He|He].
  - by rewrite !Nat.min_l by lia.
  - rewrite (Nat.min_r e) by lia.
    destruct (decide (s <= length l)) as [Hs|Hs].
    + rewrite Nat.min_l by lia.
      by rewrite !take_ge by (rewrite length_drop; lia).
    + rewrite Nat.min_r by lia. rewrite !drop_ge by lia.
      by rewrite !take_nil.
Qed.

(** A block of a branch below [nb] lies in the first [nb * nseg]
    entries. *)
Lemma py_slice_block_prefix {A : Type} (l : list A) (nb nseg b : nat) :
  b < nb ->
  py_slice (take (nb * nseg) l) (Z.of_nat b * Z.of_nat nseg)
    ((Z.of_nat b + 1) * Z.of_nat nseg)
  = py_slice l (Z.of_nat b * Z.of_nat nseg)
      ((Z.of_nat b + 1) * Z.of_nat nseg).
Proof.
  intros Hb.
  replace (Z.of_nat b * Z.of_nat nseg)%Z with (Z.of_nat (b * nseg)) by lia.
  replace ((Z.of_nat b + 1) * Z.of_nat nseg)%Z
    with (Z.of_nat ((b + 1) * nseg)) by lia.
  rewrite !py_slice_of_nat by lia.
  rewrite !take_drop_commute, take_take. f_equal. f_equal. nia.
Qed.

Lemma tridiag_loop_ext
    (v1 na1 kd1 leak1 ie1 nn1 v2 na2 kd2 leak2 ie2 nn2 : list F)
    (nseg : Z) (dt coupling_conds : F) (bs : list Z) :
  (forall b, b ∈ bs ->
     py_slice v1 (b * nseg) ((b + 1) * nseg)
     = py_slice v2 (b * nseg) ((b + 1) * nseg)
     /\ py_slice na1 (b * nseg) ((b + 1) * nseg)
        = py_slice na2 (b * nseg) ((b + 1) * nseg)
     /\ py_slice kd1 (b * nseg) ((b + 1) * nseg)
        = py_slice kd2 (b * nseg) ((b + 1) * nseg)
     /\ py_slice leak1 (b * nseg) ((b + 1) * nseg)
        = py_slice leak2 (b * nseg) ((b + 1) * nseg)
     /\ py_slice ie1 (b * nseg) ((b + 1) * nseg)
        = py_slice ie2 (b * nseg) ((b + 1) * nseg)
     /\ py_slice nn1 (b * nseg) ((b + 1) * nseg)
        = py_slice nn2 (b * nseg) ((b + 1) * nseg)) ->
  forall lowers diags uppers solves,
    tridiag_loop v1 na1 kd1 leak1 ie1 nn1 nseg dt coupling_conds bs
      lowers diags uppers solves
    = tridiag_loop v2 na2 kd2 leak2 ie2 nn2 nseg dt coupling_conds bs
        lowers diags uppers solves.
Proof.
  induction bs as [|b bs IH]; intros Hbs lowers diags uppers solves;
    [done|].
  cbn [tridiag_loop].
  destruct (Hbs b) as (-> & -> & -> & -> & -> & ->); [left|].
  destruct (_define_tridiag_for_branch _ _ _ _ _ _ _ _ _)
    as [[[[lower diag] upper] solve]|]; [|done].
  cbn [mbind option_bind]. apply IH. intros b' Hb'. apply Hbs. by right.
Qed.

(** X4. [define_all_tridiags] reads only the first
    [num_branches * nseg_per_branch] entries of each of its six vectors:
    cutting every vector to that length changes nothing, whether the call
    succeeds or fails. *)
Theorem define_all_tridiags_reads_prefix
    (voltages na_conds kd_conds leak_conds i_ext num_neighbours : list F)
    (nseg nb : nat) (dt coupling_conds : F) :
  define_all_tridiags voltages na_conds kd_conds leak_conds i_ext
    num_neighbours (Z.of_nat nseg) (Z.of_nat nb) dt coupling_conds
  = define_all_tridiags (take (nb * nseg) voltages)
      (take (nb * nseg) na_conds) (take (nb * nseg) kd_conds)
      (take (nb * nseg) leak_conds) (take (nb * nseg) i_ext)
      (take (nb * nseg) num_neighbours) (Z.of_nat nseg) (Z.of_nat nb) dt
      coupling_conds.
Proof.
  unfold define_all_tridiags. f_equal. symmetry. apply tridiag_loop_ext.
  intros z Hz. unfold arange in Hz. rewrite Nat2Z.id in Hz.
  apply list_elem_of_fmap in Hz as (b & -> & Hb).
  apply elem_of_seq in Hb.
  rewrite !(py_slice_block_prefix _ nb) by lia. done.
Qed.

End TridiagReads.

(** Two entries too many in every vector, in binary64. *)
Example define_all_tridiags_ignores_tail :
  define_all_tridiags [1; 2; 3; 4; 7; 7]%float [1; 2; 3; 4; 7; 7]%float
    [1; 2; 3; 4; 7; 7]%float [1; 2; 3; 4; 7; 7]%float
    [1; 2; 3; 4; 7; 7]%float [1; 2; 3; 4; 7; 7]%float 2 2 0.5%float 2%float
  = Some ([[-1]; [-1]], [[3.5; 6]; [8.5; 11]], [[-1]; [-1]],
          [[-51; -102]; [-153; -204]])%float.
Proof. vm_compute. reflexivity. Qed.

(** ** The sign of the coefficients *)

Lemma nth_nonneg (l : list R) (k : nat) :
  Forall (fun x => 0 <= x)%R l -> (0 <= nth k l 0)%R.
Proof.
  intros Hl. rewrite nth_lookup. destruct (l !! k) as [x|] eqn:E; simpl.
  - rewrite Forall_lookup in Hl. by apply (Hl k x).
  - lra.
Qed.

(** X5. For six vectors of [nb * nseg] entries, a step size, a coupling
    conductance, conductances and neighbour counts that are all
    non-negative, every diagonal entry of every assembled system is at
    least 1: the diagonal never vanishes. *)
Theorem define_all_tridiags_diagonal_at_least_one
    (voltages na_conds kd_conds leak_conds i_ext num_neighbours : list R)
    (nseg nb : nat) (dt coupling_conds : R) :
  length voltages = nb * nseg -> length na_conds = nb * nseg ->
  length kd_conds = nb * nseg -> length leak_conds = nb * nseg ->
  length i_ext = nb * nseg -> length num_neighbours = nb * nseg ->
  (0 <= dt)%R -> (0 <= coupling_conds)%R ->
  Forall (fun x => 0 <= x)%R na_conds ->
  Forall (fun x => 0 <= x)%R kd_conds ->
  Forall (fun x => 0 <= x)%R leak_conds ->
  Forall (fun x => 0 <= x)%R num_neighbours ->
  exists lowers diags uppers solves,
    define_all_tridiags voltages na_conds kd_conds leak_conds i_ext
      num_neighbours (Z.of_nat nseg) (Z.of_nat nb) dt coupling_conds
    = Some (lowers, diags, uppers, solves)
    /\ forall b diag i d,
         diags !! b = Some diag -> diag !! i = Some d -> (1 <= d)%R.
Proof.
  intros Hv Hna Hkd Hleak Hie Hnn Hdt Hcc Pna Pkd Pleak Pnn.
  destruct (define_all_tridiags_R voltages na_conds kd_conds leak_conds
              i_ext num_neighbours nseg nb dt coupling_conds)
    as (diags & solves & Hres & Hd & Hs & Hent); try done.
  eexists _, diags, _, solves. split; [exact Hres|].
  intros b diag i d Hdiag Hi.
  destruct (Hent b) as (diag' & rhs & Ed & _ & Ld & _ & Ha & _).
  { rewrite <- Hd. by eapply lookup_lt_Some. }
  rewrite Hdiag in Ed. injection Ed as <-.
  rewrite Ha in Hi by (rewrite <- Ld; by eapply lookup_lt_Some).
  injection Hi as <-. unfold expected_diag.
  pose proof (nth_nonneg na_conds (b * nseg + i) Pna).
  pose proof (nth_nonneg kd_conds (b * nseg + i) Pkd).
  pose proof (nth_nonneg leak_conds (b * nseg + i) Pleak).
  pose proof (nth_nonneg num_neighbours (b * nseg + i) Pnn).
  assert (0 <= dt * nth (b * nseg + i) num_neighbours 0)%R by nra.
  nra.
Qed.

(** The theorem at a cell of two branches with two compartments each. *)
Lemma define_all_tridiags_diagonal_at_least_one_witness :
  exists lowers diags uppers solves : list (list R),
    define_all_tridiags [1; 2; 3; 4]%R [1; 0; 0; 0]%R [0; 1; 0; 0]%R
      [0; 0; 1; 0]%R [0; 0; 0; 1]%R [1; 2; 2; 1]%R 2 2 (1 / 2)%R 3%R
    = Some (lowers, diags, uppers, solves)
    /\ forall b diag i d,
         diags !! b = Some diag -> diag !! i = Some d -> (1 <= d)%R.
Proof.
  apply (define_all_tridiags_diagonal_at_least_one
           [1; 2; 3; 4]%R [1; 0; 0; 0]%R [0; 1; 0; 0]%R
           [0; 0; 1; 0]%R [0; 0; 0; 1]%R [1; 2; 2; 1]%R 2 2
           (1 / 2)%R 3%R).
  - reflexivity.
  - reflexivity.
  - reflexivity.
  - reflexivity.
  - reflexivity.
  - reflexivity.
  - lra.
  - lra.
  - repeat constructor; lra.
  - repeat constructor; lra.
  - repeat constructor; lra.
  - repeat constructor; lra.
Defined.

(** Every compartment has at least as many neighbours as it has
    neighbours inside its own branch. *)
Lemma get_num_neighbours_in_branch (num_kids nn : list R) (nseg nb : nat) :
  1 <= nb -> 1 <= nseg -> length num_kids = nb ->
  Forall (fun x => 0 <= x)%R num_kids ->
  get_num_neighbours num_kids (Z.of_nat nseg) (Z.of_nat nb) = Some nn ->
  length nn = nb * nseg
  /\ forall b i, b < nb -> i < nseg ->
       ((if decide (0 < i)%nat then 1 else 0)
        + (if decide (i + 1 < nseg)%nat then 1 else 0)
        <= nth (b * nseg + i) nn 0)%R.
Proof.
  intros Hnb Hnseg Hkids Pkids Hnn.
  destruct (get_num_neighbours_generic num_kids nseg nb Hnb Hnseg Hkids)
    as (r & Hr & Hlen & Hfirst & Hlast & Hrest).
  rewrite Hnn in Hr. injection Hr as <-. split; [exact Hlen|].
  intros b i Hb Hi. rewrite nth_lookup.
  destruct (decide (i = 0)) as [->|Hi0].
  - destruct (lookup_lt_is_Some_2 num_kids b) as [k Hk]; [lia|].
    rewrite Nat.add_0_r, (Hfirst b k Hk). real_scalars. simpl.
    assert (0 <= k)%R.
    { rewrite Forall_lookup in Pkids. by apply (Pkids b k). }
    destruct (decide (0 < 0)); [lia|]. destruct (decide _); lra.
  - destruct (decide (b * nseg + i = nseg - 1)) as [Elast|Nlast].
    + rewrite Elast, Hlast by lia. real_scalars. simpl.
      destruct (decide (0 < i)); [|lia].
      destruct (decide (i + 1 < nseg));
        [destruct b; simpl in Elast; lia|]. lra.
    + rewrite Hrest; [| nia | | done].
      * real_scalars. simpl.
        destruct (decide (0 < i)); destruct (decide (i + 1 < nseg)); lra.
      * rewrite Nat.add_comm, Nat.Div0.mod_add, Nat.mod_small by lia. done.
Qed.

(** X6. With the neighbour counts of [get_num_neighbours] for
    non-negative child counts, and a step size, a coupling conductance and
    conductances that are non-negative, every row of every assembled
    system is strictly diagonally dominant: the diagonal entry exceeds by
    at least 1 the sum of the absolute values of the off-diagonal entries
    of its row, which are [- dt * coupling_conds]. *)
Theorem define_all_tridiags_diagonally_dominant
    (num_kids voltages na_conds kd_conds leak_conds i_ext : list R)
    (nseg nb : nat) (dt coupling_conds : R) :
  1 <= nb -> 1 <= nseg -> length num_kids = nb ->
  Forall (fun x => 0 <= x)%R num_kids ->
  length voltages = nb * nseg -> length na_conds = nb * nseg ->
  length kd_conds = nb * nseg -> length leak_conds = nb * nseg ->
  length i_ext = nb * nseg ->
  (0 <= dt)%R -> (0 <= coupling_conds)%R ->
  Forall (fun x => 0 <= x)%R na_conds ->
  Forall (fun x => 0 <= x)%R kd_conds ->
  Forall (fun x => 0 <= x)%R leak_conds ->
  exists nn diags solves,
    get_num_neighbours num_kids (Z.of_nat nseg) (Z.of_nat nb) = Some nn
    /\ define_all_tridiags voltages na_conds kd_conds leak_conds i_ext nn
         (Z.of_nat nseg) (Z.of_nat nb) dt coupling_conds
       = Some (replicate nb
                 (replicate (nseg - 1) (- dt * coupling_conds)%R),
               diags,
               replicate nb
                 (replicate (nseg - 1) (- dt * coupling_conds)%R),
               solves)
    /\ forall b diag i d,
         diags !! b = Some diag -> diag !! i = Some d ->
         (1 + (if decide (0 < i)%nat then Rabs (- dt * coupling_conds) else 0)
          + (if decide (i + 1 < nseg)%nat then Rabs (- dt * coupling_conds)
             else 0)
          <= d)%R.
Proof.
  intros Hnb Hnseg Hkids Pkids Hv Hna Hkd Hleak Hie Hdt Hcc Pna Pkd Pleak.
  destruct (get_num_neighbours_generic num_kids nseg nb Hnb Hnseg Hkids)
    as (nn & Hnn & _).
  destruct (get_num_neighbours_in_branch num_kids nn nseg nb)
    as [Lnn Hcount]; try done.
  destruct (define_all_tridiags_R voltages na_conds kd_conds leak_conds
              i_ext nn nseg nb dt coupling_conds)
    as (diags & solves & Hres & Hd & Hs & Hent); try done.
  exists nn, diags, solves. split; [exact Hnn|]. split; [exact Hres|].
  intros b diag i d Hdiag Hi.
  assert (Hb : b < nb) by (rewrite <- Hd; by eapply lookup_lt_Some).
  destruct (Hent b Hb) as (diag' & rhs & Ed & _ & Ld & _ & Ha & _).
  rewrite Hdiag in Ed. injection Ed as <-.
  assert (Hi' : i < nseg) by (rewrite <- Ld; by eapply lookup_lt_Some).
  rewrite Ha in Hi by done. injection Hi as <-. unfold expected_diag.
  pose proof (nth_nonneg na_conds (b * nseg + i) Pna).
  pose proof (nth_nonneg kd_conds (b * nseg + i) Pkd).
  pose proof (nth_nonneg leak_conds (b * nseg + i) Pleak).
  pose proof (Hcount b i Hb Hi') as Hc.
  assert (Habs : Rabs (- dt * coupling_conds) = (dt * coupling_conds)%R).
  { replace (- dt * coupling_conds)%R with (- (dt * coupling_conds))%R
      by ring.
    rewrite Rabs_Ropp. apply Rabs_pos_eq. nra. }
  rewrite Habs.
  assert (0 <= dt * coupling_conds)%R by nra.
  destruct (decide (0 < i)); destruct (decide (i + 1 < nseg)); nra.
Qed.

(** The theorem at a root branch with two leaf children, three
    compartments per branch. *)
Lemma define_all_tridiags_diagonally_dominant_witness :
  exists nn diags solves : _,
    get_num_neighbours [2; 0; 0]%R 3 3 = Some nn
    /\ define_all_tridiags [1; 2; 3; 4; 5; 6; 7; 8; 9]%R
         [1; 0; 0; 1; 0; 0; 1; 0; 0]%R [0; 1; 0; 0; 1; 0; 0; 1; 0]%R
         [0; 0; 1; 0; 0; 1; 0; 0; 1]%R [0; 0; 0; 0; 0; 0; 0; 0; 0]%R nn
         3 3 (1 / 2)%R 3%R
       = Some (replicate 3 (replicate (3 - 1) (- (1 / 2) * 3)%R), diags,
               replicate 3 (replicate (3 - 1) (- (1 / 2) * 3)%R), solves).
Proof.
  destruct (define_all_tridiags_diagonally_dominant [2; 0; 0]%R
              [1; 2; 3; 4; 5; 6; 7; 8; 9]%R
              [1; 0; 0; 1; 0; 0; 1; 0; 0]%R [0; 1; 0; 0; 1; 0; 0; 1; 0]%R
              [0; 0; 1; 0; 0; 1; 0; 0; 1]%R [0; 0; 0; 0; 0; 0; 0; 0; 0]%R
              3 3 (1 / 2)%R 3%R)
    as (nn & diags & solves & Hnn & Hsys & _).
  - lia.
  - lia.
  - reflexivity.
  - repeat constructor; lra.
  - reflexivity.
  - reflexivity.
  - reflexivity.
  - reflexivity.
  - reflexivity.
  - lra.
  - lra.
  - repeat constructor; lra.
  - repeat constructor; lra.
  - repeat constructor; lra.
  - exists nn, diags, solves. split; [exact Hnn | exact Hsys].
Defined.

(** ** What the coefficients depend on *)

Section TridiagDependence.
Context {F : Type} `{Scalar F}.

(** Two stacks of [nb] rows of [nseg] entries that agree entry by entry
    are equal. *)
Lemma rows_eq (rows1 rows2 : list (list F)) (nb nseg : nat) :
  length rows1 = nb -> length rows2 = nb ->
  (forall b, b < nb ->
     exists r1 r2, rows1 !! b = Some r1 /\ rows2 !! b = Some r2
       /\ length r1 = nseg /\ length r2 = nseg
       /\ forall i, i < nseg -> r1 !! i = r2 !! i) ->
  rows1 = rows2.
Proof.
  intros L1 L2 Hrows. apply list_eq. intros b.
  destruct (decide (b < nb)) as [Hb|Hb].
  - destruct (Hrows b Hb) as (r1 & r2 & -> & -> & Lr1 & Lr2 & Hent).
    f_equal. apply list_eq. intros i.
    destruct (decide (i < nseg)) as [Hi|Hi]; [by apply Hent|].
    by rewrite !(proj2 (lookup_ge_None _ _)) by lia.
  - by rewrite !(proj2 (lookup_ge_None _ _)) by lia.
Qed.

(** X7. For vectors of [nb * nseg] entries, the matrices of the assembled
    systems (lower, diagonal and upper entries) depend neither on the
    voltages nor on the injected current, and the right-hand sides depend
    neither on the neighbour counts nor on the coupling conductance. *)
Theorem define_all_tridiags_dependence
    (v1 v2 na_conds kd_conds leak_conds ie1 ie2 nn1 nn2 : list F)
    (nseg nb : nat) (dt cc1 cc2 : F) :
  length v1 = nb * nseg -> length v2 = nb * nseg ->
  length na_conds = nb * nseg -> length kd_conds = nb * nseg ->
  length leak_conds = nb * nseg ->
  length ie1 = nb * nseg -> length ie2 = nb * nseg ->
  length nn1 = nb * nseg -> length nn2 = nb * nseg ->
  (exists lowers diags uppers solves1 solves2,
     define_all_tridiags v1 na_conds kd_conds leak_conds ie1 nn1
       (Z.of_nat nseg) (Z.of_nat nb) dt cc1
     = Some (lowers, diags, uppers, solves1)
     /\ define_all_tridiags v2 na_conds kd_conds leak_conds ie2 nn1
          (Z.of_nat nseg) (Z.of_nat nb) dt cc1
        = Some (lowers, diags, uppers, solves2))
  /\ (exists lowers1 diags1 uppers1 lowers2 diags2 uppers2 solves,
        define_all_tridiags v1 na_conds kd_conds leak_conds ie1 nn1
          (Z.of_nat nseg) (Z.of_nat nb) dt cc1
        = Some (lowers1, diags1, uppers1, solves)
        /\ define_all_tridiags v1 na_conds kd_conds leak_conds ie1 nn2
             (Z.of_nat nseg) (Z.of_nat nb) dt cc2
           = Some (lowers2, diags2, uppers2, solves)).
Proof.
  intros Lv1 Lv2 Lna Lkd Lleak Lie1 Lie2 Lnn1 Lnn2.
  destruct (define_all_tridiags_generic v1 na_conds kd_conds leak_conds
              ie1 nn1 nseg nb dt cc1)
    as (d1 & s1 & E1 & Ld1 & Ls1 & H1); try done.
  destruct (define_all_tridiags_generic v2 na_conds kd_conds leak_conds
              ie2 nn1 nseg nb dt cc1)
    as (d2 & s2 & E2 & Ld2 & Ls2 & H2); try done.
  destruct (define_all_tridiags_generic v1 na_conds kd_conds leak_conds
              ie1 nn2 nseg nb dt cc2)
    as (d3 & s3 & E3 & Ld3 & Ls3 & H3); try done.
  assert (Hlook : forall (l : list F) b i,
            length l = nb * nseg -> b < nb -> i < nseg ->
            is_Some (l !! (b * nseg + i))).
  { intros l b i Hl Hb Hi. apply lookup_lt_is_Some. nia. }
  split.
  - exists (replicate nb (replicate (nseg - 1) (fmul (fneg dt) cc1))), d1,
      (replicate nb (replicate (nseg - 1) (fmul (fneg dt) cc1))), s1, s2.
    split; [exact E1|]. rewrite E2.
    assert (d2 = d1) as ->; [|done].
    apply (rows_eq _ _ nb nseg); try done. intros b Hb.
    destruct (H1 b Hb) as (r1 & q1 & R1 & Q1 & Lr1 & Lq1 & Hv1).
    destruct (H2 b Hb) as (r2 & q2 & R2 & Q2 & Lr2 & Lq2 & Hv2).
    exists r2, r1. do 4 (split; [done|]). intros i Hi.
    destruct (Hlook v1 b i Lv1 Hb Hi) as [xv1 Xv1].
    destruct (Hlook v2 b i Lv2 Hb Hi) as [xv2 Xv2].
    destruct (Hlook na_conds b i Lna Hb Hi) as [xna Xna].
    destruct (Hlook kd_conds b i Lkd Hb Hi) as [xkd Xkd].
    destruct (Hlook leak_conds b i Lleak Hb Hi) as [xleak Xleak].
    destruct (Hlook ie1 b i Lie1 Hb Hi) as [xie1 Xie1].
    destruct (Hlook ie2 b i Lie2 Hb Hi) as [xie2 Xie2].
    destruct (Hlook nn1 b i Lnn1 Hb Hi) as [xnn Xnn].
    destruct (Hv1 i _ _ _ _ _ _ Hi Xv1 Xna Xkd Xleak Xie1 Xnn) as [-> _].
    by destruct (Hv2 i _ _ _ _ _ _ Hi Xv2 Xna Xkd Xleak Xie2 Xnn) as [-> _].
  - eexists _, d1, _, _, d3, _, s1. split; [exact E1|].
    rewrite E3.
    assert (s3 = s1) as ->; [|done].
    apply (rows_eq _ _ nb nseg); try done. intros b Hb.
    destruct (H1 b Hb) as (q1 & r1 & Q1 & R1 & Lq1 & Lr1 & Hv1).
    destruct (H3 b Hb) as (q3 & r3 & Q3 & R3 & Lq3 & Lr3 & Hv3).
    exists r3, r1. do 4 (split; [done|]). intros i Hi.
    destruct (Hlook v1 b i Lv1 Hb Hi) as [xv1 Xv1].
    destruct (Hlook na_conds b i Lna Hb Hi) as [xna Xna].
    destruct (Hlook kd_conds b i Lkd Hb Hi) as [xkd Xkd].
    destruct (Hlook leak_conds b i Lleak Hb Hi) as [xleak Xleak].
    destruct (Hlook ie1 b i Lie1 Hb Hi) as [xie1 Xie1].
    destruct (Hlook nn1 b i Lnn1 Hb Hi) as [xnn1 Xnn1].
    destruct (Hlook nn2 b i Lnn2 Hb Hi) as [xnn2 Xnn2].
    destruct (Hv1 i _ _ _ _ _ _ Hi Xv1 Xna Xkd Xleak Xie1 Xnn1) as [_ ->].
    by destruct (Hv3 i _ _ _ _ _ _ Hi Xv1 Xna Xkd Xleak Xie1 Xnn2) as [_ ->].
Qed.

End TridiagDependence.

(** The theorem at a cell of two branches with two compartments each, in
    binary64. *)
Lemma define_all_tridiags_dependence_witness :
  exists lowers diags uppers solves1 solves2 : list (list float),
    define_all_tridiags [1; 2; 3; 4]%float [1; 2; 3; 4]%float
      [1; 2; 3; 4]%float [1; 2; 3; 4]%float [0; 1; 0; 0]%float
      [1; 2; 2; 1]%float 2 2 0.5%float 2%float
    = Some (lowers, diags, uppers, solves1)
    /\ define_all_tridiags [5; 6; 7; 8]%float [1; 2; 3; 4]%float
         [1; 2; 3; 4]%float [1; 2; 3; 4]%float [0; 0; 0; 0]%float
         [1; 2; 2; 1]%float 2 2 0.5%float 2%float
       = Some (lowers, diags, uppers, solves2).
Proof.
  apply (define_all_tridiags_dependence
           [1; 2; 3; 4]%float [5; 6; 7; 8]%float [1; 2; 3; 4]%float
           [1; 2; 3; 4]%float [1; 2; 3; 4]%float [0; 1; 0; 0]%float
           [0; 0; 0; 0]%float [1; 2; 2; 1]%float [1; 2; 2; 1]%float
           2 2 0.5%float 2%float 2%float); reflexivity.
Defined.

(** ** Where the stimulus enters the systems *)

(** The right-hand sides of the assembled systems, one after the other. *)
Lemma define_all_tridiags_concat_rhs
    (voltages na_conds kd_conds leak_conds i_ext num_neighbours : list R)
    (nseg nb : nat) (dt coupling_conds : R) :
  length voltages = nb * nseg -> length na_conds = nb * nseg ->
  length kd_conds = nb * nseg -> length leak_conds = nb * nseg ->
  length i_ext = nb * nseg -> length num_neighbours = nb * nseg ->
  exists diags solves,
    define_all_tridiags voltages na_conds kd_conds leak_conds i_ext
      num_neighbours (Z.of_nat nseg) (Z.of_nat nb) dt coupling_conds
    = Some (replicate nb (replicate (nseg - 1) (- dt * coupling_conds)%R),
            diags,
            replicate nb (replicate (nseg - 1) (- dt * coupling_conds)%R),
            solves)
    /\ diags
       = (fun b =>
            (fun i => expected_diag dt na_conds kd_conds leak_conds
                        num_neighbours coupling_conds (b * nseg + i))
            <$> seq 0 nseg) <$> seq 0 nb
    /\ concat solves
       = expected_rhs dt voltages na_conds kd_conds leak_conds i_ext
         <$> seq 0 (nb * nseg).
Proof.
  intros Hv Hna Hkd Hleak Hie Hnn.
  destruct (define_all_tridiags_R voltages na_conds kd_conds leak_conds
              i_ext num_neighbours nseg nb dt coupling_conds)
    as (diags & solves & Hres & Hd & Hs & Hent); try done.
  exists diags, solves. split; [exact Hres|]. split.
  - apply list_eq. intros b. rewrite list_lookup_fmap.
    destruct (decide (b < nb)) as [Hb|Hb].
    + destruct (Hent b Hb) as (diag & rhs & -> & _ & Ld & _ & Ha & _).
      rewrite lookup_seq_lt by done. simpl. f_equal.
      apply list_eq. intros i. rewrite list_lookup_fmap.
      destruct (decide (i < nseg)) as [Hi|Hi].
      * by rewrite Ha, lookup_seq_lt by done.
      * rewrite lookup_seq_ge by lia. simpl. apply lookup_ge_None. lia.
    + rewrite lookup_seq_ge by lia. simpl. apply lookup_ge_None. lia.
  - rewrite <- Hs. apply concat_blocks. intros b rhs Hrhs.
    destruct (Hent b) as (diag & rhs' & _ & Er & _ & Lr & _ & Hr).
    { rewrite <- Hs. by eapply lookup_lt_Some. }
    rewrite Hrhs in Er. injection Er as <-. done.
Qed.

(** X8. While the stimulus is on, the systems assembled with the current
    of [get_external_input] differ from the systems assembled without
    current in one place only: the right-hand side of compartment
    [nseg_per_branch - 1], the last compartment of branch 0, is larger by
    [dt * i_amp / (2 * pi * radius * length_single_compartment)]. *)
Theorem stimulus_enters_one_rhs_entry
    (voltages na_conds kd_conds leak_conds num_neighbours : list R)
    (nseg nb : nat) (dt coupling_conds t i_dur i_amp radius len : R) :
  1 <= nb -> 1 <= nseg ->
  length voltages = nb * nseg -> length na_conds = nb * nseg ->
  length kd_conds = nb * nseg -> length leak_conds = nb * nseg ->
  length num_neighbours = nb * nseg ->
  (5 <= t <= 5 + i_dur)%R ->
  exists lowers diags uppers solves_on solves_off,
    define_all_tridiags voltages na_conds kd_conds leak_conds
      (get_external_input voltages t i_dur i_amp radius len
         (Z.of_nat nseg))
      num_neighbours (Z.of_nat nseg) (Z.of_nat nb) dt coupling_conds
    = Some (lowers, diags, uppers, solves_on)
    /\ define_all_tridiags voltages na_conds kd_conds leak_conds
         (zeros_like voltages)
         num_neighbours (Z.of_nat nseg) (Z.of_nat nb) dt coupling_conds
       = Some (lowers, diags, uppers, solves_off)
    /\ concat solves_on
       = <[nseg - 1 :=
             (nth (nseg - 1) (concat solves_off) 0
              + dt * (i_amp / (2 * PI * radius * len)))%R]>
           (concat solves_off).
Proof.
  intros Hnb Hnseg Hv Hna Hkd Hleak Hnn Hin.
  set (cur := (i_amp / (2 * PI * radius * len))%R).
  assert (Hon : get_external_input voltages t i_dur i_amp radius len
                  (Z.of_nat nseg)
                = <[nseg - 1 := cur]> (zeros_like voltages)).
  { rewrite get_external_input_on by (by apply stim_window_R).
    real_scalars. rewrite current_density_R.
    replace (Z.of_nat nseg - 1)%Z with (Z.of_nat (nseg - 1)) by lia.
    apply at_set_in_range. rewrite length_zeros_like. nia. }
  destruct (define_all_tridiags_concat_rhs voltages na_conds kd_conds
              leak_conds (<[nseg - 1 := cur]> (zeros_like voltages))
              num_neighbours nseg nb dt coupling_conds)
    as (d1 & s1 & E1 & D1 & C1); try done.
  { by rewrite length_insert, length_zeros_like. }
  destruct (define_all_tridiags_concat_rhs voltages na_conds kd_conds
              leak_conds (zeros_like voltages)
              num_neighbours nseg nb dt coupling_conds)
    as (d2 & s2 & E2 & D2 & C2); try done.
  { by rewrite length_zeros_like. }
  rewrite Hon. eexists _, d1, _, s1, s2. split; [exact E1|].
  split; [by rewrite E2, D2, <- D1|].
  rewrite C1, C2. apply list_eq. intros k.
  assert (Hz : forall j, nth j (zeros_like voltages) 0%R = 0%R).
  { intros j. apply all_zero_nth, all_zero_zeros_like. }
  destruct (decide (k = nseg - 1)) as [->|Hk].
  - rewrite list_lookup_insert_eq by (rewrite length_fmap, length_seq; nia).
    rewrite list_lookup_fmap, lookup_seq_lt by nia. simpl. f_equal.
    rewrite nth_lookup, list_lookup_fmap, lookup_seq_lt by nia. simpl.
    unfold expected_rhs. rewrite Hz.
    rewrite (nth_lookup (<[_ := _]> _)), list_lookup_insert_eq
      by (rewrite length_zeros_like; nia).
    simpl. ring.
  - rewrite list_lookup_insert_ne by done.
    rewrite !list_lookup_fmap.
    destruct (seq 0 (nb * nseg) !! k) as [k0|] eqn:Ek; [|done].
    apply lookup_seq in Ek as [-> _].
    simpl. f_equal. unfold expected_rhs.
    rewrite (nth_lookup (<[_ := _]> _)), list_lookup_insert_ne by done.
    by rewrite <- nth_lookup, Hz.
Qed.

(** The theorem at a cell of two branches with two compartments each, at
    the onset of the stimulus. *)
Lemma stimulus_enters_one_rhs_entry_witness :
  exists lowers diags uppers solves_on solves_off : list (list R),
    define_all_tridiags [1; 2; 3; 4]%R [1; 0; 0; 0]%R [0; 1; 0; 0]%R
      [0; 0; 1; 0]%R
      (get_external_input [1; 2; 3; 4]%R 5%R 10%R 1%R 1%R 1%R 2)
      [1; 2; 2; 1]%R 2 2 (1 / 2)%R 3%R
    = Some (lowers, diags, uppers, solves_on)
    /\ define_all_tridiags [1; 2; 3; 4]%R [1; 0; 0; 0]%R [0; 1; 0; 0]%R
         [0; 0; 1; 0]%R (zeros_like [1; 2; 3; 4]%R)
         [1; 2; 2; 1]%R 2 2 (1 / 2)%R 3%R
       = Some (lowers, diags, uppers, solves_off).
Proof.
  destruct (stimulus_enters_one_rhs_entry [1; 2; 3; 4]%R [1; 0; 0; 0]%R
              [0; 1; 0; 0]%R [0; 0; 1; 0]%R [1; 2; 2; 1]%R 2 2
              (1 / 2)%R 3%R 5%R 10%R 1%R 1%R 1%R)
    as (lowers & diags & uppers & s_on & s_off & Hon & Hoff & _).
  - lia.
  - lia.
  - reflexivity.
  - reflexivity.
  - reflexivity.
  - reflexivity.
  - reflexivity.
  - lra.
  - exists lowers, diags, uppers, s_on, s_off.
    split; [exact Hon | exact Hoff].
Defined.

(** ** Edge cases of get_num_neighbours *)

Section NumNeighboursEdges.
Context {F : Type} `{Scalar F}.

(** X9. With one compartment per branch, and at least one branch, the
    compartment is first and last at once, and the later update wins: the
    result is [num_kids + 1], and the 1 written for the last compartment
    of branch 0 is overwritten. *)
Theorem get_num_neighbours_single_compartment (num_kids : list F) :
  num_kids <> [] ->
  get_num_neighbours num_kids 1 (Z.of_nat (length num_kids))
  = Some (map (fun k => fadd k (of_Z 1)) num_kids).
Proof.
  intros Hkids.
  destruct (get_num_neighbours_generic num_kids 1 (length num_kids))
    as (r & Hr & Hlen & Hfirst & _);
    [destruct num_kids; [done | simpl; lia] | lia | done |].
  change 1%Z with (Z.of_nat 1). rewrite Hr. f_equal.
  apply list_eq. intros b. change (map ?f ?l) with (f <$> l).
  rewrite list_lookup_fmap.
  destruct (num_kids !! b) as [k|] eqn:Ek; simpl.
  - specialize (Hfirst b k Ek). by rewrite Nat.mul_1_r in Hfirst.
  - apply lookup_ge_None. apply lookup_ge_None in Ek. lia.
Qed.

(** X10. A vector of child counts whose length is neither the number of
    branches nor 1 cannot be broadcast to the first compartments: the
    call fails. *)
Theorem get_num_neighbours_shape_error (num_kids : list F) (nseg nb : Z) :
  length num_kids <> Z.to_nat nb -> length num_kids <> 1 ->
  get_num_neighbours num_kids nseg nb = None.
Proof.
  intros Hnb Hone. unfold get_num_neighbours.
  destruct (ones (nb * nseg)) as [o|]; [|done]. cbn [mbind option_bind].
  unfold at_set_many, broadcast_to.
  rewrite decide_False.
  - destruct num_kids as [|k [|k' kids]]; simpl in *; done.
  - rewrite !length_map. unfold arange. rewrite length_map, length_seq.
    done.
Qed.

(** X11. A single child count stands for every branch: it is broadcast
    to the first compartments of all branches. *)
Theorem get_num_neighbours_broadcast (k : F) (nseg nb : Z) :
  get_num_neighbours [k] nseg nb
  = get_num_neighbours (replicate (Z.to_nat nb) k) nseg nb.
Proof.
  unfold get_num_neighbours.
  destruct (ones (nb * nseg)) as [o|]; [|done]. cbn [mbind option_bind].
  unfold at_set_many, broadcast_to.
  assert (Hidx : length (map (fun b => (b * nseg)%Z) (arange nb))
                 = Z.to_nat nb).
  { unfold arange. by rewrite !length_map, length_seq. }
  rewrite Hidx. change (map ?f ?l) with (f <$> l).
  rewrite fmap_replicate, length_replicate.
  rewrite (decide_True (P := Z.to_nat nb = Z.to_nat nb)) by done.
  simpl. destruct (decide (1 = Z.to_nat nb)) as [<-|]; done.
Qed.

End NumNeighboursEdges.

(** The theorem at three branches of one compartment, the first with two
    children. *)
Lemma get_num_neighbours_single_compartment_witness :
  get_num_neighbours [2%float; 0%float; 0%float] 1 3
  = Some [3%float; 1%float; 1%float].
Proof.
  rewrite (get_num_neighbours_single_compartment
             [2%float; 0%float; 0%float]).
  - reflexivity.
  - discriminate.
Defined.

(** The theorem at three child counts for two branches. *)
Lemma get_num_neighbours_shape_error_witness :
  get_num_neighbours [1%float; 0%float; 0%float] 2 2 = None.
Proof.
  apply get_num_neighbours_shape_error; simpl; lia.
Defined.

(** ** The site of the stimulus *)

Section StimulusSite.
Context {F : Type} `{Scalar F}.

(** X12. For at least one compartment and an index
    [nseg_per_branch - 1] that fits in a signed 32-bit integer: when
    [nseg_per_branch] exceeds the number of compartments, or is at most
    its negation, the index addresses no compartment: the update is
    dropped and the current is zero everywhere, also while the stimulus
    is on. *)
Theorem get_external_input_site_out_of_range (voltages : list F)
    (t i_dur i_amp radius len : F) (nseg : Z) :
  voltages <> [] ->
  (Z.of_nat (length voltages) < nseg <= 2 ^ 31
   \/ - 2 ^ 31 < nseg <= - Z.of_nat (length voltages))%Z ->
  get_external_input voltages t i_dur i_amp radius len nseg
  = zeros_like voltages.
Proof.
  intros _ Hout. unfold get_external_input. destruct (_ && _); [|done].
  unfold at_set. rewrite length_zeros_like.
  assert (Hnone : normalize_index (length voltages) (nseg - 1) = None).
  { unfold normalize_index.
    destruct (Z.ltb_spec (nseg - 1) 0);
      destruct (Z.leb_spec 0 (nseg - 1 + Z.of_nat (length voltages)));
      destruct (Z.leb_spec 0 (nseg - 1));
      destruct (Z.ltb_spec (nseg - 1) (Z.of_nat (length voltages)));
      destruct (Z.ltb_spec (nseg - 1 + Z.of_nat (length voltages))
                  (Z.of_nat (length voltages)));
      simpl; try done; lia. }
  by rewrite Hnone.
Qed.

(** X13. A non-positive [nseg_per_branch] above the negated number of
    compartments makes the index [nseg_per_branch - 1] count from the
    end: while the stimulus is on the current is written at position
    [len(voltages) + nseg_per_branch - 1]; for [nseg_per_branch = 0] that
    is the last compartment of the last branch. *)
Theorem get_external_input_site_from_end (voltages : list F)
    (t i_dur i_amp radius len : F) (nseg : Z) :
  fge t (of_Z 5) && fle t (fadd (of_Z 5) i_dur) = true ->
  (- Z.of_nat (length voltages) < nseg <= 0)%Z ->
  get_external_input voltages t i_dur i_amp radius len nseg
  = <[Z.to_nat (Z.of_nat (length voltages) + nseg - 1) :=
        fdiv (fdiv (fdiv (fdiv i_amp (of_Z 2)) fpi) radius) len]>
      (zeros_like voltages).
Proof.
  intros Hon Hseg. rewrite get_external_input_on by done.
  unfold at_set. rewrite length_zeros_like.
  assert (Hidx : normalize_index (length voltages) (nseg - 1)
                 = Some (Z.to_nat (Z.of_nat (length voltages) + nseg - 1))).
  { unfold normalize_index.
    destruct (Z.ltb_spec (nseg - 1) 0); [|lia].
    destruct (Z.leb_spec 0 (nseg - 1 + Z.of_nat (length voltages))); [|lia].
    destruct (Z.ltb_spec (nseg - 1 + Z.of_nat (length voltages))
                (Z.of_nat (length voltages))); [|lia].
    simpl. f_equal. lia. }
  by rewrite Hidx.
Qed.

End StimulusSite.

(** The theorem at three compartments and [nseg_per_branch = 5]. *)
Lemma get_external_input_site_out_of_range_witness :
  get_external_input [0; 0; 0]%float 6%float 10%float 1%float 1%float
    1%float 5
  = [0; 0; 0]%float.
Proof.
  rewrite (get_external_input_site_out_of_range [0; 0; 0]%float).
  - reflexivity.
  - discriminate.
  - simpl. lia.
Defined.

(** The theorem at three compartments and [nseg_per_branch = 0], with
    [i_amp = 2 * pi]. *)
Lemma get_external_input_site_from_end_witness :
  get_external_input [0; 0; 0]%float 5%float 10%float (2 * fpi)%float
    1%float 1%float 0
  = [0; 0; 1]%float.
Proof.
  rewrite (get_external_input_site_from_end [0; 0; 0]%float).
  - vm_compute. reflexivity.
  - vm_compute. reflexivity.
  - simpl. lia.
Defined.

(** ** Vectors that are too short *)

Section ShortVectors.
Context {F : Type} `{Scalar F}.

Lemma ewise2_None (f : F -> F -> F) (xs ys : list F) :
  length xs <> length ys -> length xs <> 1 -> length ys <> 1 ->
  ewise2 f xs ys = None.
Proof.
  intros Hne Hx Hy. unfold ewise2. rewrite decide_False by done.
  destruct xs as [|x [|x' xs]]; destruct ys as [|y [|y' ys]];
    simpl in *; done.
Qed.

(** X14. With at least two compartments per branch, a potassium
    conductance vector that does not fill the block of branch 0 and does
    not have exactly one entry is refused when the sodium vector fills
    the block: the call fails instead of padding the vector. *)
Theorem define_all_tridiags_short_conductances
    (voltages na_conds kd_conds leak_conds i_ext num_neighbours : list F)
    (nseg nb : nat) (dt coupling_conds : F) :
  1 <= nb -> 2 <= nseg ->
  nseg <= length na_conds ->
  length kd_conds < nseg -> length kd_conds <> 1 ->
  define_all_tridiags voltages na_conds kd_conds leak_conds i_ext
    num_neighbours (Z.of_nat nseg) (Z.of_nat nb) dt coupling_conds = None.
Proof.
  intros Hnb Hnseg Hna Hkd Hkd1. unfold define_all_tridiags.
  rewrite arange_of_nat. destruct nb as [|nb]; [lia|].
  cbn [seq fmap list_fmap tridiag_loop].
  change (Z.of_nat 0 * Z.of_nat nseg)%Z with (Z.of_nat 0).
  replace ((Z.of_nat 0 + 1) * Z.of_nat nseg)%Z with (Z.of_nat nseg) by lia.
  unfold _define_tridiag_for_branch.
  rewrite (ewise2_None _ (py_slice na_conds _ _)); [done|..];
    rewrite !py_slice_of_nat by lia; rewrite !length_take, !length_drop;
    lia.
Qed.

End ShortVectors.

(** The theorem at an empty potassium vector. *)
Lemma define_all_tridiags_short_conductances_witness :
  define_all_tridiags [1; 2; 3; 4]%float [1; 2; 3; 4]%float []
    [1; 2; 3; 4]%float [1; 2; 3; 4]%float [1; 2; 3; 4]%float 2 2 0.5%float
    2%float = None.
Proof.
  apply (define_all_tridiags_short_conductances [1; 2; 3; 4]%float
           [1; 2; 3; 4]%float [] [1; 2; 3; 4]%float [1; 2; 3; 4]%float
           [1; 2; 3; 4]%float 2 2 0.5%float 2%float); simpl; lia.
Defined.

(** ** A run that ends before the onset of the stimulus *)

Section BeforeOnset.
Variable imports : Imports R.

(** Before time 5 the per-step update reads neither the amplitude nor the
    duration of the stimulus. *)
Lemma find_root_before_onset (g : Globals) (t : R) (u params : list R)
    (i_delay a1 a2 d1 d2 dt radius len : R) (nn : list R) (cc : R)
    (levels : list (list Z)) (parents : list Z) :
  (t < 5)%R ->
  find_root imports g t u params i_delay a1 d1 dt radius len nn cc levels
    parents
  = find_root imports g t u params i_delay a2 d2 dt radius len nn cc levels
      parents.
Proof.
  intros Ht. unfold find_root, stimulus_get_external_input.
  by rewrite !get_external_input_off by (apply stim_window_off_R; lra).
Qed.

Lemma body_fun_loop_state_unfold (g : Globals) (cell : Cell R)
    (stimulus : Stimulus R) (dt : R) (params : list R) (i : Z) (t : R)
    (u sv : list R) :
  body_fun imports g i (loop_state cell stimulus dt params t u sv)
  = find_root imports g t u params (i_delay stimulus) (i_amp stimulus)
      (i_dur stimulus) dt (radius cell) (length_single_compartment cell)
      (num_neighbours cell) (coupling_conds cell)
      (branches_in_each_level cell) (parents cell)
    ≫= fun u' =>
         u' !! 0 ≫= fun u0 =>
           Some (loop_state cell stimulus dt params (t + dt)%R u'
                   (at_set sv i u0)).
Proof. reflexivity. Qed.

Lemma fori_loop_from_before_onset (g : Globals) (cell : Cell R)
    (s1 s2 : Stimulus R) (dt : R) (params : list R) (k : nat) :
  i_delay s1 = i_delay s2 -> (0 <= dt)%R ->
  forall (i : Z) (t : R) (u sv : list R),
    (t + IZR (Z.of_nat k) * dt < 5 + dt)%R ->
    fori_loop_from (body_fun imports g) i k
      (loop_state cell s1 dt params t u sv)
      ≫= (fun s => Some (st_saveat s))
    = fori_loop_from (body_fun imports g) i k
        (loop_state cell s2 dt params t u sv)
        ≫= (fun s => Some (st_saveat s)).
Proof.
  intros Hdelay Hdt. induction k as [|k IH]; intros i t u sv Ht; [done|].
  rewrite Nat2Z.inj_succ, succ_IZR in Ht.
  assert (0 <= IZR (Z.of_nat k))%R by (apply IZR_le; lia).
  cbn [fori_loop_from]. rewrite !body_fun_loop_state_unfold, Hdelay.
  rewrite (find_root_before_onset _ _ _ _ _ (i_amp s1) (i_amp s2)
             (i_dur s1) (i_dur s2)) by nra.
  destruct (find_root _ _ _ _ _ _ _ _ _ _ _ _ _ _ _) as [u'|]; [|done].
  cbn [mbind option_bind]. destruct (u' !! 0) as [u0|]; [|done].
  cbn [mbind option_bind]. unfold carry_same_shape.
  cbn [loop_state st_u]. destruct (length u' =? length u); [|done].
  apply IH. lra.
Qed.

(** X15. With a non-negative step size [dt] such that [999 * dt < 5],
    all 1000 steps start before the onset of the stimulus, and the trace
    [solve] returns depends neither on the amplitude nor on the duration
    of the stimulus. *)
Theorem solve_before_onset (g0 : Globals) (cell : Cell R) (dt : R)
    (u params : list R) (s1 s2 : Stimulus R) :
  (0 <= dt)%R -> (999 * dt < 5)%R -> i_delay s1 = i_delay s2 ->
  (solve imports g0 cell dt u params s1).1
  = (solve imports g0 cell dt u params s2).1.
Proof.
  intros Hdt Hshort Hdelay. unfold solve, fori_loop. cbn [fst].
  change (Z.to_nat (1000 - 0)) with 1000.
  apply fori_loop_from_before_onset; try done.
  change (Z.of_nat 1000) with 1000%Z. real_scalars. lra.
Qed.

End BeforeOnset.

(** The theorem at the step size 1/1000 and two amplitudes. *)
Lemma solve_before_onset_witness :
  (solve uncoupled_imports initial_globals
     {| num_branches := 1; nseg_per_branch := 2; radius := 1%R;
        length_single_compartment := 10%R; num_neighbours := [1; 1]%R;
        coupling_conds := 0%R; branches_in_each_level := [[0%Z]];
        parents := [(-1)%Z] |}
     (1 / 1000)%R [-65; 1 / 2; 1 / 2; 1 / 2; -60; 1 / 4; 3 / 4; 1 / 2]%R
     [1; 1; 1; 1; 1; 1]%R
     {| i_delay := 5%R; i_amp := 1%R; i_dur := 2%R |}).1
  = (solve uncoupled_imports initial_globals
       {| num_branches := 1; nseg_per_branch := 2; radius := 1%R;
          length_single_compartment := 10%R; num_neighbours := [1; 1]%R;
          coupling_conds := 0%R; branches_in_each_level := [[0%Z]];
          parents := [(-1)%Z] |}
       (1 / 1000)%R [-65; 1 / 2; 1 / 2; 1 / 2; -60; 1 / 4; 3 / 4; 1 / 2]%R
       [1; 1; 1; 1; 1; 1]%R
       {| i_delay := 5%R; i_amp := 7%R; i_dur := 3%R |}).1.
Proof.
  apply solve_before_onset.
  - lra.
  - lra.
  - reflexivity.
Defined.

(** ** A last block of one voltage *)

Section BroadcastBlock.
Context {F : Type} `{Scalar F}.

Lemma ewise2_singleton_l (f : F -> F -> F) (x : F) (ys : list F) :
  ewise2 f [x] ys = Some (zip_with f (replicate (length ys) x) ys).
Proof.
  assert (Hmap : forall l : list F,
            zip_with f (replicate (length l) x) l = map (f x) l).
  { induction l as [|y l IH]; simpl; [done|]. by rewrite IH. }
  unfold ewise2. destruct (decide _) as [Hlen|Hlen].
  - destruct ys as [|y [|y' ys]]; simpl in *; done.
  - by rewrite Hmap.
Qed.

(** One voltage for a whole branch is broadcast over its compartments. *)
Lemma define_tridiag_for_branch_one_voltage (x : F)
    (na_conds kd_conds leak_conds i_ext num_neighbours : list F)
    (dt coupling_conds : F) (nseg : Z) (n : nat) :
  length na_conds = n -> length kd_conds = n -> length leak_conds = n ->
  length i_ext = n -> length num_neighbours = n ->
  _define_tridiag_for_branch [x] na_conds kd_conds leak_conds i_ext dt
    num_neighbours coupling_conds nseg
  = _define_tridiag_for_branch (replicate n x) na_conds kd_conds leak_conds
      i_ext dt num_neighbours coupling_conds nseg.
Proof.
  intros Hna Hkd Hleak Hie Hnn. unfold _define_tridiag_for_branch.
  symmetry.
  repeat (rewrite ewise2_bind by (list_lengths; lia); cbv beta).
  rewrite ewise2_singleton_l. cbn [mbind option_bind].
  match goal with
  | |- context [replicate (length ?l) x] =>
      replace (length l) with n by (list_lengths; lia)
  end.
  reflexivity.
Qed.

Lemma tridiag_loop_ext_calls
    (v1 na1 kd1 leak1 ie1 nn1 v2 na2 kd2 leak2 ie2 nn2 : list F)
    (nseg : Z) (dt coupling_conds : F) (bs : list Z) :
  (forall b, b ∈ bs ->
     _define_tridiag_for_branch
       (py_slice v1 (b * nseg) ((b + 1) * nseg))
       (py_slice na1 (b * nseg) ((b + 1) * nseg))
       (py_slice kd1 (b * nseg) ((b + 1) * nseg))
       (py_slice leak1 (b * nseg) ((b + 1) * nseg))
       (py_slice ie1 (b * nseg) ((b + 1) * nseg)) dt
       (py_slice nn1 (b * nseg) ((b + 1) * nseg)) coupling_conds nseg
     = _define_tridiag_for_branch
         (py_slice v2 (b * nseg) ((b + 1) * nseg))
         (py_slice na2 (b * nseg) ((b + 1) * nseg))
         (py_slice kd2 (b * nseg) ((b + 1) * nseg))
         (py_slice leak2 (b * nseg) ((b + 1) * nseg))
         (py_slice ie2 (b * nseg) ((b + 1) * nseg)) dt
         (py_slice nn2 (b * nseg) ((b + 1) * nseg)) coupling_conds nseg) ->
  forall lowers diags uppers solves,
    tridiag_loop v1 na1 kd1 leak1 ie1 nn1 nseg dt coupling_conds bs
      lowers diags uppers solves
    = tridiag_loop v2 na2 kd2 leak2 ie2 nn2 nseg dt coupling_conds bs
        lowers diags uppers solves.
Proof.
  induction bs as [|b bs IH]; intros Hbs lowers diags uppers solves;
    [done|].
  cbn [tridiag_loop]. rewrite (Hbs b) by left.
  destruct (_define_tridiag_for_branch _ _ _ _ _ _ _ _ _)
    as [[[[lower diag] upper] solve]|]; [|done].
  cbn [mbind option_bind]. apply IH. intros b' Hb'. apply Hbs. by right.
Qed.

(** X16. A voltage vector that ends one entry into the block of the last
    branch is not refused: its last entry is taken as the voltage of
    every compartment of that branch. *)
Theorem define_all_tridiags_broadcasts_last_voltage
    (v_pre na_conds kd_conds leak_conds i_ext num_neighbours : list F)
    (x : F) (nseg nb : nat) (dt coupling_conds : F) :
  1 <= nb -> 1 <= nseg ->
  length v_pre = (nb - 1) * nseg ->
  length na_conds = nb * nseg -> length kd_conds = nb * nseg ->
  length leak_conds = nb * nseg -> length i_ext = nb * nseg ->
  length num_neighbours = nb * nseg ->
  define_all_tridiags (v_pre ++ [x]) na_conds kd_conds leak_conds i_ext
    num_neighbours (Z.of_nat nseg) (Z.of_nat nb) dt coupling_conds
  = define_all_tridiags (v_pre ++ replicate nseg x) na_conds kd_conds
      leak_conds i_ext num_neighbours (Z.of_nat nseg) (Z.of_nat nb) dt
      coupling_conds.
Proof.
  intros Hnb Hnseg Hv Hna Hkd Hleak Hie Hnn.
  unfold define_all_tridiags. f_equal. apply tridiag_loop_ext_calls.
  intros z Hz. unfold arange in Hz. rewrite Nat2Z.id in Hz.
  apply list_elem_of_fmap in Hz as (b & -> & Hb).
  apply elem_of_seq in Hb.
  replace (Z.of_nat b * Z.of_nat nseg)%Z with (Z.of_nat (b * nseg)) by lia.
  replace ((Z.of_nat b + 1) * Z.of_nat nseg)%Z
    with (Z.of_nat ((b + 1) * nseg)) by lia.
  rewrite !py_slice_of_nat by lia.
  replace ((b + 1) * nseg - b * nseg) with nseg by lia.
  destruct (decide (b = nb - 1)) as [->|Hlast].
  - rewrite <- Hv, !drop_app_length.
    rewrite (take_ge [x]) by (simpl; lia).
    rewrite (take_ge (replicate nseg x)) by (rewrite length_replicate; lia).
    apply define_tridiag_for_branch_one_voltage;
      rewrite length_take, length_drop; nia.
  - rewrite !take_drop_commute.
    by rewrite !(take_app_le v_pre) by nia.
Qed.

End BroadcastBlock.

(** The theorem at two branches of two compartments and three voltages. *)
Lemma define_all_tridiags_broadcasts_last_voltage_witness :
  define_all_tridiags ([1; 2]%float ++ [3%float]) [1; 2; 3; 4]%float
    [1; 2; 3; 4]%float [1; 2; 3; 4]%float [1; 2; 3; 4]%float
    [1; 2; 3; 4]%float 2 2 0.5%float 2%float
  = define_all_tridiags ([1; 2]%float ++ replicate 2 3%float)
      [1; 2; 3; 4]%float [1; 2; 3; 4]%float [1; 2; 3; 4]%float
      [1; 2; 3; 4]%float [1; 2; 3; 4]%float 2 2 0.5%float 2%float.
Proof.
  apply (define_all_tridiags_broadcasts_last_voltage [1; 2]%float
           [1; 2; 3; 4]%float [1; 2; 3; 4]%float [1; 2; 3; 4]%float
           [1; 2; 3; 4]%float [1; 2; 3; 4]%float 3%float 2 2 0.5%float
           2%float); simpl; lia.
Defined.
